(** * The pageseeker_response -> pageseeker_response_opensearch migration

    A shallow embedding of the two migration scripts of the repository,
    [migrate_records.js] (plain upsert, skip-and-advance on fetch errors) and
    its sibling (pre-filter of existing ids, bounded upsert retry,
    retry-in-place on connection errors), together with the properties the
    specification states about them.

    Layout: the JavaScript runtime fragment the scripts rely on (truthiness,
    [parseInt], the two regular expressions, [Date]); the row transformer
    shared verbatim by both scripts; the datastore and the effect monad; the
    two [main] loops; then the theorems. *)

From Stdlib Require Import ZArith Ascii String List Lia Bool.
From stdpp Require Import base option list gmap sorting.

#[local] Set Warnings "-clear-no-such-hyp".

Local Open Scope Z_scope.

(** ** JavaScript values and strings *)

Module JS.

(** The JSON values a row of the datastore can hold.  Numbers are the
    integer-valued ones. *)
Inductive value :=
  | VNull
  | VBool (b : bool)
  | VNum (n : Z)
  | VStr (s : string).

(** ToBoolean. *)
Definition truthy (v : value) : bool :=
  match v with
  | VNull => false
  | VBool b => b
  | VNum n => negb (n =? 0)
  | VStr EmptyString => false
  | VStr _ => true
  end.

(** [v || null]. *)
Definition or_null (v : value) : value := if truthy v then v else VNull.

(** What [throw] carries: an object with a [message]. *)
Record js_error := { message : string }.

Definition code (c : ascii) : Z := Z.of_nat (nat_of_ascii c).

Definition is_digit (c : ascii) : bool := (48 <=? code c) && (code c <=? 57).

(** [\w] is [A-Za-z0-9_]. *)
Definition is_word (c : ascii) : bool :=
  is_digit c
  || ((65 <=? code c) && (code c <=? 90))
  || ((97 <=? code c) && (code c <=? 122))
  || (code c =? 95).

(** White space of the ASCII range: TAB, LF, VT, FF, CR and SP. *)
Definition is_space (c : ascii) : bool :=
  ((9 <=? code c) && (code c <=? 13)) || (code c =? 32).

Definition digit_val (c : ascii) : Z := code c - 48.

Fixpoint str_take (n : nat) (s : string) : string :=
  match n, s with
  | S n', String c s' => String c (str_take n' s')
  | _, _ => EmptyString
  end.

Fixpoint str_drop (n : nat) (s : string) : string :=
  match n, s with
  | S n', String _ s' => str_drop n' s'
  | _, _ => s
  end.

(** [s.includes(t)]. *)
Fixpoint includes (s t : string) : bool :=
  String.prefix t s
  || match s with
     | EmptyString => false
     | String _ s' => includes s' t
     end.

(** *** parseInt(s, 10)

    Leading white space is skipped, one sign is accepted, then the longest
    run of decimal digits is read; [None] is NaN.  The result is the
    mathematical integer (exact in a Number below 2^53). *)

Fixpoint skip_space (s : string) : string :=
  match s with
  | String c s' => if is_space c then skip_space s' else s
  | EmptyString => s
  end.

Fixpoint read_digits (acc : option Z) (s : string) : option Z :=
  match s with
  | String c s' =>
      if is_digit c
      then read_digits (Some (10 * default 0 acc + digit_val c)) s'
      else acc
  | EmptyString => acc
  end.

Definition parseInt_str (s : string) : option Z :=
  match skip_space s with
  | String "-" r => Z.opp <$> read_digits None r
  | String "+" r => read_digits None r
  | r => read_digits None r
  end.

(** Decimal digits of a natural number, most significant first, on at least
    [width] places. *)
Fixpoint digits_aux (fuel : nat) (n : Z) (acc : string) : string :=
  match fuel with
  | O => acc
  | S f =>
      let acc' := String (ascii_of_nat (Z.to_nat (48 + n mod 10))) acc in
      if n / 10 =? 0 then acc' else digits_aux f (n / 10) acc'
  end.

Definition decimal (n : Z) : string :=
  digits_aux (S (Z.to_nat (Z.log2 n))) n EmptyString.

Fixpoint zeros (k : nat) : string :=
  match k with
  | O => EmptyString
  | S k' => String "0" (zeros k')
  end.

Definition pad (width : nat) (n : Z) : string :=
  let d := decimal n in
  String.append (zeros (width - String.length d)) d.

(** ToString. *)
Definition to_string (v : value) : string :=
  match v with
  | VNull => "null"
  | VBool true => "true"
  | VBool false => "false"
  | VNum n => if n <? 0 then String "-" (decimal (- n)) else decimal n
  | VStr s => s
  end.

(** [parseInt(v, 10)]. *)
Definition parseInt (v : value) : option Z := parseInt_str (to_string v).

(** [x || null] for a Number [x]: NaN and 0 are falsy. *)
Definition num_or_null (x : option Z) : option Z :=
  match x with
  | Some n => if n =? 0 then None else Some n
  | None => None
  end.

(** *** Regular expressions

    The fragment both patterns live in: a sequence of greedy bounded
    repetitions of a character class, with one capture group.  Matching
    backtracks over the repetition counts, longest first, and
    [String.prototype.match] tries every start position from the left. *)

Inductive cls :=
  | CChar (c : ascii)
  | CDigit
  | CWord.

Definition cls_test (k : cls) (c : ascii) : bool :=
  match k with
  | CChar c' => Ascii.eqb c c'
  | CDigit => is_digit c
  | CWord => is_word c
  end.

Inductive item :=
  | Rep (k : cls) (lo : nat) (hi : option nat)
  | Open
  | Close.

Fixpoint lit (s : string) : list item :=
  match s with
  | EmptyString => []
  | String c s' => Rep (CChar c) 1 (Some 1%nat) :: lit s'
  end.

(** Length of the longest prefix of [s] in class [k], capped by [hi]. *)
Fixpoint run_length (k : cls) (hi : option nat) (s : string) : nat :=
  match s with
  | String c s' =>
      if cls_test k c then
        match hi with
        | Some O => O
        | Some (S h) => S (run_length k (Some h) s')
        | None => S (run_length k None s')
        end
      else O
  | EmptyString => O
  end.

(** Match [items] at the start of [s]; the result is the text of the
    capture group. *)
Fixpoint match_here (items : list item) (s : string) (ing : bool)
    (cap : string) : option string :=
  match items with
  | [] => Some cap
  | Open :: r => match_here r s true EmptyString
  | Close :: r => match_here r s false cap
  | Rep k lo hi :: r =>
      (fix try (n : nat) : option string :=
         let here :=
           if (lo <=? n)%nat
           then match_here r (str_drop n s) ing
                  (if ing then String.append cap (str_take n s) else cap)
           else None in
         match here, n with
         | Some c, _ => Some c
         | None, O => None
         | None, S n' => try n'
         end) (run_length k hi s)
  end.

(** [s.match(re)] for a non-global [re]: [None] is null, [Some c] is a match
    whose group 1 is [c]. *)
Fixpoint regex_match (items : list item) (s : string) : option string :=
  match match_here items s false EmptyString with
  | Some c => Some c
  | None =>
      match s with
      | EmptyString => None
      | String _ s' => regex_match items s'
      end
  end.

End JS.

(** ** The Date fragment

    [new Date(text)], [getTime], [toISOString] as node's engine runs them on
    the strings the date pattern can capture: a one- or two-digit number, a
    space, three word characters, a space, four digits.  Such a string never
    is an ISO 8601 date-time, so the engine's legacy parser decides; the
    characters that cannot occur in the capture (signs, colons, dots,
    parentheses and the like) are outside the model. *)

Module JSDate.
Import JS.

Inductive keyword :=
  | KwMonth (m : Z)
  | KwAmPm (h : Z)
  | KwTimeZone (h : Z)
  | KwTimeSeparator
  | KwInvalid.

Inductive token :=
  | TkNumber (n : Z)
  | TkKeyword (k : keyword)
  | TkWhiteSpace
  | TkOther.

(** The keyword table: matched on the lower-cased first three characters,
    zero padded; only a month name may belong to a longer word. *)
Definition keywords : list (string * keyword) :=
  [ ("jan", KwMonth 1); ("feb", KwMonth 2); ("mar", KwMonth 3);
    ("apr", KwMonth 4); ("may", KwMonth 5); ("jun", KwMonth 6);
    ("jul", KwMonth 7); ("aug", KwMonth 8); ("sep", KwMonth 9);
    ("oct", KwMonth 10); ("nov", KwMonth 11); ("dec", KwMonth 12);
    ("am", KwAmPm 0); ("pm", KwAmPm 12);
    ("ut", KwTimeZone 0); ("utc", KwTimeZone 0); ("z", KwTimeZone 0);
    ("gmt", KwTimeZone 0);
    ("cdt", KwTimeZone (-5)); ("cst", KwTimeZone (-6));
    ("edt", KwTimeZone (-4)); ("est", KwTimeZone (-5));
    ("mdt", KwTimeZone (-6)); ("mst", KwTimeZone (-7));
    ("pdt", KwTimeZone (-7)); ("pst", KwTimeZone (-8));
    ("t", KwTimeSeparator) ]%string.

Definition is_month (k : keyword) : bool :=
  match k with KwMonth _ => true | _ => false end.

Definition to_lower (c : ascii) : ascii :=
  ascii_of_nat (Z.to_nat (Z.lor (code c) 32)).

Fixpoint lower (s : string) : string :=
  match s with
  | EmptyString => EmptyString
  | String c s' => String (to_lower c) (lower s')
  end.

Fixpoint lookup_keyword (table : list (string * keyword)) (pre : string)
    (len : nat) : keyword :=
  match table with
  | [] => KwInvalid
  | (key, k) :: rest =>
      if String.eqb pre key && ((len <=? 3)%nat || is_month k)
      then k
      else lookup_keyword rest pre len
  end.

(** A word is a run of characters at or above "A". *)
Fixpoint word_length (s : string) : nat :=
  match s with
  | String c s' =>
      if (65 <=? code c) && negb (is_space c) then S (word_length s') else O
  | EmptyString => O
  end.

Fixpoint space_length (s : string) : nat :=
  match s with
  | String c s' => if is_space c then S (space_length s') else O
  | EmptyString => O
  end.

Fixpoint skip_zeros (s : string) : string :=
  match s with
  | String "0" s' => skip_zeros s'
  | _ => s
  end.

(** An unsigned numeral: leading zeros skipped, nine significant digits
    converted. *)
Definition numeral (digits : string) : Z :=
  default 0 (read_digits None (str_take 9 (skip_zeros digits))).

Fixpoint tokenize (fuel : nat) (s : string) : list token :=
  match fuel, s with
  | S f, String c s' =>
      if is_digit c then
        let n := run_length CDigit None s in
        TkNumber (numeral (str_take n s)) :: tokenize f (str_drop n s)
      else if (65 <=? code c) && negb (is_space c) then
        let n := word_length s in
        TkKeyword (lookup_keyword keywords (lower (str_take (Nat.min n 3) s)) n)
          :: tokenize f (str_drop n s)
      else if is_space c then
        TkWhiteSpace :: tokenize f (str_drop (space_length s) s)
      else TkOther :: tokenize f s'
  | _, _ => []
  end.

(** The composers of the legacy parser: up to three day components, a named
    month, a named time zone (hours east of UTC). *)
Record composer := {
  comp : list Z;
  named_month : option Z;
  zone : option Z;
  has_read_number : bool
}.

Definition peek_is_number (ts : list token) : bool :=
  match ts with TkNumber _ :: _ => true | _ => false end.

Fixpoint legacy_loop (ts : list token) (st : composer) : option composer :=
  match ts with
  | [] => Some st
  | TkNumber n :: rest =>
      (* no time and no sign has been read: the number is a day component *)
      if (length (comp st) <? 3)%nat
      then legacy_loop rest
             {| comp := comp st ++ [n]; named_month := named_month st;
                zone := zone st; has_read_number := true |}
      else None
  | TkKeyword (KwMonth m) :: rest =>
      legacy_loop rest
        {| comp := comp st; named_month := Some m; zone := zone st;
           has_read_number := has_read_number st |}
  | TkKeyword k :: rest =>
      match k, has_read_number st with
      | KwTimeZone h, true =>
          legacy_loop rest
            {| comp := comp st; named_month := named_month st;
               zone := Some h; has_read_number := true |}
      | _, true => None            (* garbage word after a number *)
      | _, false => if peek_is_number rest then None else legacy_loop rest st
      end
  | TkWhiteSpace :: rest => legacy_loop rest st
  | TkOther :: _ => None
  end.

Definition is_day (x : Z) : bool := (1 <=? x) && (x <=? 31).
Definition is_month_number (x : Z) : bool := (1 <=? x) && (x <=? 12).

(** DayComposer::Write: year, month (1-12) and day of the month. *)
Definition write_day (st : composer) : option (Z * Z * Z) :=
  match comp st with
  | [] => None
  | c0 :: cs =>
      let c1 := default 1 (cs !! 0%nat) in
      let c2 := default 1 (cs !! 1%nat) in
      let '(year, month, day) :=
        match named_month st with
        | None => if is_day c0 then (c2, c0, c1) else (c0, c1, c2)
        | Some m => if is_day c0 then (c1, m, c0) else (c0, m, c1)
        end in
      let year :=
        if (0 <=? year) && (year <=? 49) then year + 2000
        else if (50 <=? year) && (year <=? 99) then year + 1900
        else year in
      if is_month_number month && is_day day
      then Some (year, month, day)
      else None
  end.

(** Days from 1970-01-01 to the given day of the proleptic Gregorian
    calendar, and back. *)
Definition days_from_civil (y m d : Z) : Z :=
  let y := if m <=? 2 then y - 1 else y in
  let era := y / 400 in
  let yoe := y - era * 400 in
  let doy := (153 * (if 2 <? m then m - 3 else m + 9) + 2) / 5 + d - 1 in
  let doe := yoe * 365 + yoe / 4 - yoe / 100 + doy in
  era * 146097 + doe - 719468.

Definition civil_from_days (z : Z) : Z * Z * Z :=
  let z := z + 719468 in
  let era := z / 146097 in
  let doe := z - era * 146097 in
  let yoe := (doe - doe / 1460 + doe / 36524 - doe / 146096) / 365 in
  let doy := doe - (365 * yoe + yoe / 4 - yoe / 100) in
  let mp := (5 * doy + 2) / 153 in
  let d := doy - (153 * mp + 2) / 5 + 1 in
  let m := if mp <? 10 then mp + 3 else mp - 9 in
  (if m <=? 2 then yoe + era * 400 + 1 else yoe + era * 400, m, d).

Definition msPerDay : Z := 86400000.

Section LocalTime.

(** The offset of the process's local time zone, minutes east of UTC. *)
Variable tzOffset : Z.

(** [new Date(text).getTime()]: [None] is NaN.  A string without a zone
    name is read as local time. *)
Definition Date_getTime (text : string) : option Z :=
  st ← legacy_loop (tokenize (String.length text) text)
         {| comp := []; named_month := None; zone := None;
            has_read_number := false |};
  '(year, month, day) ← write_day st;
  let local := (days_from_civil year month 1 + day - 1) * msPerDay in
  Some (match zone st with
        | Some h => local - h * 3600000
        | None => local - tzOffset * 60000
        end).

End LocalTime.

(** [toISOString] of a time value: UTC, [YYYY-MM-DDTHH:mm:ss.sssZ], with a
    signed six-digit year outside 0..9999. *)
Definition iso_year (y : Z) : string :=
  if (0 <=? y) && (y <=? 9999) then pad 4 y
  else if y <? 0 then String "-" (pad 6 (- y))
  else String "+" (pad 6 y).

Definition toISOString (t : Z) : string :=
  let '(y, m, d) := civil_from_days (t / msPerDay) in
  let ms := t mod msPerDay in
  String.concat EmptyString
    [ iso_year y; "-"; pad 2 m; "-"; pad 2 d; "T";
      pad 2 (ms / 3600000); ":"; pad 2 (ms / 60000 mod 60); ":";
      pad 2 (ms / 1000 mod 60); "."; pad 3 (ms mod 1000); "Z" ]%string.

(** [s.split('T')[0]]. *)
Fixpoint before_T (s : string) : string :=
  match s with
  | EmptyString => EmptyString
  | String c s' => if Ascii.eqb c "T" then EmptyString else String c (before_T s')
  end.

End JSDate.

(** ** The row transformer

    [parseAdDate] and [transformRow] are the same text in both scripts. *)

(** A synchronous computation either returns or throws. *)
Inductive result (A : Type) :=
  | Ok (a : A)
  | Throws (e : JS.js_error).
Arguments Ok {A} a.
Arguments Throws {A} e.

(** A row of [pageseeker_response]. *)
Module Src.
Record row := {
  id : Z;
  keyword : JS.value;
  ad_id : JS.value;
  ad_url : JS.value;
  page_url : JS.value;
  ad_date : JS.value;
  ad_name : JS.value;
  ad_profile_url : JS.value;
  ad_caption : JS.value;
  ad_links : JS.value;
  image_urls : JS.value;
  video_urls : JS.value;
  collected_at : JS.value;
  ad_risk_level : JS.value;
  ad_risk_reason : JS.value;
  request_id : JS.value
}.
End Src.

(** A row of [pageseeker_response_opensearch].  [None] is null. *)
Module Dest.
Record row := {
  id : Z;
  keyword : JS.value;
  ad_id : option Z;
  ad_url : JS.value;
  page_url : JS.value;
  ad_date : option string;
  active_time_hr : option Z;
  ad_name : JS.value;
  ad_profile_url : JS.value;
  ad_caption : JS.value;
  ad_links : JS.value;
  image_urls : JS.value;
  video_urls : JS.value;
  collected_at : JS.value;
  ad_risk_level : option Z;
  ad_risk_reason : JS.value;
  request_id : option Z;
  opensearch_sync : bool
}.
End Dest.

(** The object [parseAdDate] returns. *)
Module Parsed.
Record t := { ad_date : option string; active_time_hr : option Z }.
End Parsed.

Module Transform.
Import JS JSDate.

(** [/Started running on (\d{1,2} \w{3} \d{4})/] *)
Definition re_date : list item :=
  (lit "Started running on "
   ++ [ Open;
        Rep CDigit 1 (Some 2%nat); Rep (CChar " ") 1 (Some 1%nat);
        Rep CWord 3 (Some 3%nat); Rep (CChar " ") 1 (Some 1%nat);
        Rep CDigit 4 (Some 4%nat);
        Close ])%list.

(** [/Total active time (\d+) hrs/] *)
Definition re_time : list item :=
  (lit "Total active time " ++ [Open; Rep CDigit 1 None; Close] ++ lit " hrs")%list.

Section LocalTime.

Variable tzOffset : Z.

(** [parseAdDate(adDateText)].  A truthy value that is not a string has no
    [match] method, and the call throws a TypeError.  Inside the [try] the
    [isNaN] test guards [toISOString], so the [catch] never runs. *)
Definition parseAdDate (adDateText : value) : result Parsed.t :=
  if negb (truthy adDateText) then
    Ok {| Parsed.ad_date := None; Parsed.active_time_hr := None |}
  else
    match adDateText with
    | VStr text =>
        let dateMatch := regex_match re_date text in
        let timeMatch := regex_match re_time text in
        let ad_date :=
          match dateMatch with
          | Some group1 =>
              match Date_getTime tzOffset group1 with
              | Some t => Some (before_T (toISOString t))
              | None => None
              end
          | None => None
          end in
        let active_time_hr :=
          match timeMatch with
          | Some group1 => parseInt_str group1
          | None => None
          end in
        Ok {| Parsed.ad_date := ad_date;
              Parsed.active_time_hr := active_time_hr |}
    | _ => Throws {| message := "adDateText.match is not a function" |}
    end.

(** [row.f ? parseInt(row.f, 10) || null : null] *)
Definition int_or_null (v : value) : option Z :=
  if truthy v then num_or_null (parseInt v) else None.

(** [transformRow(row)] *)
Definition transformRow (row : Src.row) : result Dest.row :=
  match parseAdDate (Src.ad_date row) with
  | Throws e => Throws e
  | Ok parsed =>
      Ok {| Dest.id := Src.id row;
            Dest.keyword := or_null (Src.keyword row);
            Dest.ad_id := int_or_null (Src.ad_id row);
            Dest.ad_url := or_null (Src.ad_url row);
            Dest.page_url := or_null (Src.page_url row);
            Dest.ad_date := Parsed.ad_date parsed;
            Dest.active_time_hr := Parsed.active_time_hr parsed;
            Dest.ad_name := or_null (Src.ad_name row);
            Dest.ad_profile_url := or_null (Src.ad_profile_url row);
            Dest.ad_caption := or_null (Src.ad_caption row);
            Dest.ad_links := or_null (Src.ad_links row);
            Dest.image_urls := or_null (Src.image_urls row);
            Dest.video_urls := or_null (Src.video_urls row);
            Dest.collected_at := or_null (Src.collected_at row);
            Dest.ad_risk_level := int_or_null (Src.ad_risk_level row);
            Dest.ad_risk_reason := or_null (Src.ad_risk_reason row);
            Dest.request_id := int_or_null (Src.request_id row);
            Dest.opensearch_sync := false |}
  end.

(** [rows.map(transformRow)]: the first throw ends the map. *)
Fixpoint map_transformRow (rows : list Src.row) : result (list Dest.row) :=
  match rows with
  | [] => Ok []
  | row :: rest =>
      match transformRow row with
      | Throws e => Throws e
      | Ok d =>
          match map_transformRow rest with
          | Throws e => Throws e
          | Ok ds => Ok (d :: ds)
          end
      end
  end.

End LocalTime.

End Transform.

(** ** The datastore and the effects of the scripts

    The two tables, the outcome the client library gives each call, and a
    log of what the process did.  Every call of the client consumes one
    entry of [faults] (an exhausted list means the call succeeds): the call
    runs against the tables, or resolves with an error payload and no data,
    or rejects, which makes the [await] throw. *)

Module Store.
Import JS.

Inductive fault :=
  | NoFault
  | ErrorPayload (e : js_error)
  | Rejects (e : js_error).

Inductive event :=
  | EvCountSource
  | EvCountDest
  | EvFetch (after : option Z)
  | EvExisting (ids : list Z)
  | EvUpsert (records : list Dest.row)
  | EvSleep (ms : Z).

(** [log] has the newest event first. *)
Record world := {
  source : list Src.row;
  dest : gmap Z Dest.row;
  faults : list fault;
  log : list event
}.

(** What a call of the client resolves to: [{ data, error }]. *)
Record reply (A : Type) := { data : option A; error : option js_error }.
Arguments data {A} r.
Arguments error {A} r.

Inductive outcome (A : Type) :=
  | Ret (a : A)
  | Raise (e : js_error)       (* an exception on its way up *)
  | Exit (status : Z)          (* process.exit(status) *)
  | OutOfFuel.                 (* the loop has not finished yet *)
Arguments Ret {A} a.
Arguments Raise {A} e.
Arguments Exit {A} status.
Arguments OutOfFuel {A}.

Definition M (A : Type) : Type := world → outcome A * world.

Definition ret {A} (a : A) : M A := λ w, (Ret a, w).

Definition bind {A B} (m : M A) (k : A → M B) : M B := λ w,
  match m w with
  | (Ret a, w') => k a w'
  | (Raise e, w') => (Raise e, w')
  | (Exit c, w') => (Exit c, w')
  | (OutOfFuel, w') => (OutOfFuel, w')
  end.

Definition throw {A} (e : js_error) : M A := λ w, (Raise e, w).
Definition process_exit {A} (status : Z) : M A := λ w, (Exit status, w).
Definition out_of_fuel {A} : M A := λ w, (OutOfFuel, w).

(** [try { m } catch (err) { handler err }] *)
Definition try_catch {A} (m : M A) (handler : js_error → M A) : M A := λ w,
  match m w with
  | (Raise e, w') => handler e w'
  | r => r
  end.

Definition lift {A} (r : result A) : M A :=
  match r with
  | Ok a => ret a
  | Throws e => throw e
  end.

Definition record (ev : event) (w : world) : world :=
  {| source := source w; dest := dest w; faults := faults w;
     log := ev :: log w |}.

Definition next_fault (w : world) : fault * world :=
  match faults w with
  | [] => (NoFault, w)
  | f :: rest =>
      (f, {| source := source w; dest := dest w; faults := rest;
             log := log w |})
  end.

Definition set_dest (d : gmap Z Dest.row) (w : world) : world :=
  {| source := source w; dest := d; faults := faults w; log := log w |}.

(** One call of the client. *)
Definition call {A} (ev : event) (run : world → A * world) : M (reply A) := λ w,
  match next_fault (record ev w) with
  | (NoFault, w') =>
      let '(a, w'') := run w' in
      (Ret {| data := Some a; error := None |}, w'')
  | (ErrorPayload e, w') => (Ret {| data := None; error := Some e |}, w')
  | (Rejects e, w') => (Raise e, w')
  end.

Definition sleep (ms : Z) : M unit := λ w, (Ret tt, record (EvSleep ms) w).

(** [.select('id', { count: 'exact', head: true })] *)
Definition count_source : M (reply nat) :=
  call EvCountSource (λ w, (length (source w), w)).

Definition count_dest : M (reply nat) :=
  call EvCountDest (λ w, (size (dest w), w)).

Definition id_le (a b : Src.row) : Prop := Src.id a ≤ Src.id b.

#[global] Instance id_le_dec a b : Decision (id_le a b) :=
  decide (Src.id a ≤ Src.id b).

(** [.order('id', { ascending: true })] *)
Definition order_by_id (rows : list Src.row) : list Src.row :=
  merge_sort id_le rows.

(** The page a select over the source returns: [.gt('id', after)] when the
    filter is there, [.order('id')], [.limit(limit)]. *)
Definition page (after : option Z) (limit : nat) (rows : list Src.row)
    : list Src.row :=
  take limit
    (match after with
     | Some lastId => filter (λ r, lastId < Src.id r) (order_by_id rows)
     | None => order_by_id rows
     end).

Definition select_source (after : option Z) (limit : nat)
    : M (reply (list Src.row)) :=
  call (EvFetch after) (λ w, (page after limit (source w), w)).

(** [.select('id').in('id', ids)] over the destination. *)
Definition select_existing (ids : list Z) : M (reply (list Z)) :=
  call (EvExisting ids)
    (λ w, (filter (λ i, is_Some (dest w !! i)) ids, w)).

(** Insert, or replace the row of the same id. *)
Definition upsert_rows (records : list Dest.row) (d : gmap Z Dest.row)
    : gmap Z Dest.row :=
  foldl (λ m r, <[Dest.id r := r]> m) d records.

(** [.upsert(records, { onConflict: 'id' })] *)
Definition upsert (records : list Dest.row) : M (reply unit) :=
  call (EvUpsert records)
    (λ w, (tt, set_dest (upsert_rows records (dest w)) w)).

End Store.

Declare Scope js_scope.
Delimit Scope js_scope with js.
Notation "x <- m ;; k" := (Store.bind m (λ x, k))
  (at level 100, m at next level, right associativity) : js_scope.
Notation "m ;;; k" := (Store.bind m (λ _, k))
  (at level 100, right associativity) : js_scope.

(** The running totals of [main] and the cursor. *)
Record counters := {
  totalProcessed : Z;
  totalUpserted : Z;
  totalErrors : Z;
  lastId : Z
}.

Definition initial : counters :=
  {| totalProcessed := 0; totalUpserted := 0; totalErrors := 0; lastId := 0 |}.

(** How one turn of [while (true)] ends. *)
Inductive flow :=
  | Continue (st : counters)
  | Break (st : counters).

Definition BATCH_SIZE : nat := 1000.

(** [totalProcessed += rows.length; lastId = rows[rows.length - 1].id] *)
Definition advance (rows : list Src.row) (st : counters) : Store.M counters :=
  match last rows with
  | Some r =>
      Store.ret {| totalProcessed := totalProcessed st + Z.of_nat (length rows);
                   totalUpserted := totalUpserted st;
                   totalErrors := totalErrors st;
                   lastId := Src.id r |}
  | None => Store.throw {| JS.message := "Cannot read properties of undefined" |}
  end.

Definition count_error (st : counters) : counters :=
  {| totalProcessed := totalProcessed st; totalUpserted := totalUpserted st;
     totalErrors := totalErrors st + 1; lastId := lastId st |}.

Definition count_upserted (n : nat) (st : counters) : counters :=
  {| totalProcessed := totalProcessed st;
     totalUpserted := totalUpserted st + Z.of_nat n;
     totalErrors := totalErrors st; lastId := lastId st |}.

(** [totalErrors++; lastId += BATCH_SIZE] *)
Definition skip_page (st : counters) : counters :=
  {| totalProcessed := totalProcessed st; totalUpserted := totalUpserted st;
     totalErrors := totalErrors st + 1;
     lastId := lastId st + Z.of_nat BATCH_SIZE |}.

(** The frame both [main]s share: the two counts, the loop, the final count
    and the exit status; an exception that escapes reaches
    [main().catch], which exits with 1. *)
Section Script.
Import Store.
Local Open Scope js_scope.

Variable iteration : counters → M flow.

Fixpoint loop (fuel : nat) (st : counters) : M counters :=
  match fuel with
  | O => out_of_fuel
  | S fuel' =>
      f <- iteration st ;;
      match f with
      | Continue st' => loop fuel' st'
      | Break st' => ret st'
      end
  end.

Definition main (fuel : nat) : M unit :=
  c <- count_source ;;
  match error c with
  | Some countErr => process_exit 1
  | None =>
      count_dest ;;;
      st <- loop fuel initial ;;
      count_dest ;;;
      if 0 <? totalErrors st then process_exit 1 else process_exit 0
  end.

Definition run (fuel : nat) : M unit :=
  try_catch (main fuel) (λ err, process_exit 1).

End Script.

(** ** migrate_records.js: upsert every page, skip a page that fails to
    load *)

Module Upsert.
Import JS Store Transform.
Local Open Scope js_scope.

(** [.gt('id', lastId)] is part of every fetch. *)
Definition after (st : counters) : option Z := Some (lastId st).

Section LocalTime.
Variable tzOffset : Z.

Definition iteration (st : counters) : M flow :=
  r <- select_source (after st) BATCH_SIZE ;;
  match error r with
  | Some fetchErr =>
      let st' := skip_page st in
      if 10 <? totalErrors st' then ret (Break st') else ret (Continue st')
  | None =>
      match data r with
      | None | Some [] => ret (Break st)
      | Some rows =>
          transformed <- lift (map_transformRow tzOffset rows) ;;
          u <- upsert transformed ;;
          let st1 :=
            match error u with
            | Some upsertErr => count_error st
            | None => count_upserted (length transformed) st
            end in
          st2 <- advance rows st1 ;;
          ret (Continue st2)
      end
  end.

Definition main := main iteration.
Definition run := run iteration.

End LocalTime.
End Upsert.

(** ** The sibling script: write only the ids the destination lacks, retry
    the write, retry a fetch in place on a connection error *)

Module Prefilter.
Import JS Store Transform.
Local Open Scope js_scope.

Definition MAX_RETRIES : Z := 3.
Definition RETRY_DELAY : Z := 1000.

(** What [upsertWithRetry] returns: [{ success, error }]. *)
Record retry_result := { success : bool; retry_error : option js_error }.

(** How one turn of the [for] loop ends. *)
Inductive attempt_end :=
  | Return (r : retry_result)
  | NextAttempt.

(** The [for] loop of [upsertWithRetry], from [attempt] on; [remaining] is
    the number of turns [attempt <= maxRetries] allows.  Falling out of the
    loop returns undefined, [None]. *)
Fixpoint retry_from (data : list Dest.row) (maxRetries : Z) (remaining : nat)
    (attempt : Z) : M (option retry_result) :=
  match remaining with
  | O => ret None
  | S remaining' =>
      e <- try_catch
             (r <- upsert data ;;
              match error r with
              | Some error =>
                  if attempt <? maxRetries
                  then (sleep RETRY_DELAY ;;; ret NextAttempt)
                  else throw error
              | None => ret (Return {| success := true; retry_error := None |})
              end)
             (λ err,
                if attempt =? maxRetries
                then ret (Return {| success := false; retry_error := Some err |})
                else (sleep RETRY_DELAY ;;; ret NextAttempt)) ;;
      match e with
      | Return r => ret (Some r)
      | NextAttempt => retry_from data maxRetries remaining' (attempt + 1)
      end
  end.

Definition upsertWithRetry (data : list Dest.row) (maxRetries : Z)
    : M (option retry_result) :=
  retry_from data maxRetries (Z.to_nat maxRetries) 1.

(** [error.message && (includes('terminated') || includes('timeout') ||
    includes('connection'))] *)
Definition is_connection_error (e : js_error) : bool :=
  negb (String.eqb (message e) EmptyString)
  && (includes (message e) "terminated"
      || includes (message e) "timeout"
      || includes (message e) "connection").

(** The body of both handlers: wait and retry the batch, or give up. *)
Definition retry_or_exit {A} (e : js_error) (again : A) : M A :=
  if is_connection_error e
  then (sleep 2000 ;;; ret again)
  else process_exit 1.

(** [if (lastId > 0) query = query.gt('id', lastId)] *)
Definition after (st : counters) : option Z :=
  if 0 <? lastId st then Some (lastId st) else None.

(** The existence check and its handler: [inr] is [existingRecords], [inl]
    the [continue] of the handler. *)
Definition check_existing (ids : list Z) (st : counters)
    : M (flow + option (list Z)) :=
  try_catch
    (result <- select_existing ids ;; ret (inr (data result)))
    (λ error, retry_or_exit error (inl (Continue st))).

(** [transformed.filter(record => !existingIds.has(record.id))] with
    [existingIds = new Set(existingRecords?.map(r => r.id) || [])] *)
Definition new_records (existingRecords : option (list Z))
    (transformed : list Dest.row) : list Dest.row :=
  let existingIds : gset Z := list_to_set (default [] existingRecords) in
  filter (λ record, Dest.id record ∉ existingIds) transformed.

(** The rest of the turn, from [if (newRecords.length === 0)] on. *)
Definition write_new (rows : list Src.row) (newRecords : list Dest.row)
    (st : counters) : M flow :=
  match newRecords with
  | [] =>
      st' <- advance rows st ;;
      ret (Continue st')
  | _ =>
      retryResult <- upsertWithRetry newRecords MAX_RETRIES ;;
      match retryResult with
      | None => throw {| message := "Cannot read properties of undefined" |}
      | Some res =>
          let st1 :=
            match retry_error res with
            | Some _ => count_error st
            | None => count_upserted (length newRecords) st
            end in
          st2 <- advance rows st1 ;;
          ret (Continue st2)
      end
  end.

Section LocalTime.
Variable tzOffset : Z.

Definition iteration (st : counters) : M flow :=
  r <- select_source (after st) BATCH_SIZE ;;
  match error r with
  | Some error => retry_or_exit error (Continue st)
  | None =>
      match data r with
      | None | Some [] => ret (Break st)
      | Some rows =>
          transformed <- lift (map_transformRow tzOffset rows) ;;
          let ids := map Src.id rows in
          checked <- check_existing ids st ;;
          match checked with
          | inl again => ret again
          | inr existingRecords =>
              write_new rows (new_records existingRecords transformed) st
          end
      end
  end.

Definition main := main iteration.
Definition run := run iteration.

End LocalTime.
End Prefilter.


(** ** Definitions the statements use *)

Definition parsed (d : option string) (h : option Z) : result Parsed.t :=
  Ok {| Parsed.ad_date := d; Parsed.active_time_hr := h |}.

Fixpoint all_digits (s : string) : bool :=
  match s with
  | EmptyString => true
  | String c s' => JS.is_digit c && all_digits s'
  end.

(** The typing of a [SourceRecord]: [ad_date] is text or absent. *)
Definition well_typed (r : Src.row) : Prop :=
  Src.ad_date r = JS.VNull ∨ ∃ s, Src.ad_date r = JS.VStr s.

(** Sample rows. *)
Definition dated_row (i : Z) (date : JS.value) : Src.row :=
  {| Src.id := i; Src.keyword := JS.VStr "shoes"; Src.ad_id := JS.VStr "120";
     Src.ad_url := JS.VNull; Src.page_url := JS.VNull; Src.ad_date := date;
     Src.ad_name := JS.VNull; Src.ad_profile_url := JS.VNull;
     Src.ad_caption := JS.VNull; Src.ad_links := JS.VNull;
     Src.image_urls := JS.VNull; Src.video_urls := JS.VNull;
     Src.collected_at := JS.VNull; Src.ad_risk_level := JS.VStr "2";
     Src.ad_risk_reason := JS.VNull; Src.request_id := JS.VStr "7" |}.

Definition plain_row (i : Z) : Src.row := dated_row i (JS.VStr EmptyString).

Definition zero_row : Src.row :=
  {| Src.id := 1; Src.keyword := JS.VStr "shoes"; Src.ad_id := JS.VStr "0";
     Src.ad_url := JS.VNull; Src.page_url := JS.VNull; Src.ad_date := JS.VNull;
     Src.ad_name := JS.VNull; Src.ad_profile_url := JS.VNull;
     Src.ad_caption := JS.VNull; Src.ad_links := JS.VNull;
     Src.image_urls := JS.VNull; Src.video_urls := JS.VNull;
     Src.collected_at := JS.VNull; Src.ad_risk_level := JS.VStr "0";
     Src.ad_risk_reason := JS.VNull; Src.request_id := JS.VStr "0" |}.

(** What [transformRow] makes of [plain_row i], with the flag set as
    given: a row the indexer has marked as synchronised has it true. *)
Definition synced_row (i : Z) (sync : bool) : Dest.row :=
  {| Dest.id := i; Dest.keyword := JS.VStr "shoes"; Dest.ad_id := Some 120;
     Dest.ad_url := JS.VNull; Dest.page_url := JS.VNull; Dest.ad_date := None;
     Dest.active_time_hr := None; Dest.ad_name := JS.VNull;
     Dest.ad_profile_url := JS.VNull; Dest.ad_caption := JS.VNull;
     Dest.ad_links := JS.VNull; Dest.image_urls := JS.VNull;
     Dest.video_urls := JS.VNull; Dest.collected_at := JS.VNull;
     Dest.ad_risk_level := Some 2; Dest.ad_risk_reason := JS.VNull;
     Dest.request_id := Some 7; Dest.opensearch_sync := sync |}.

Definition id_lt (a b : Src.row) : Prop := Src.id a < Src.id b.

(** The rows of the source that lie after the cursor, in fetch order. *)
Definition pending (cursor : Z) (rows : list Src.row) : list Src.row :=
  filter (λ r, cursor < Src.id r) (Store.order_by_id rows).

(** The batches, the fetch filters and the pauses a log records, newest
    first. *)
Definition upserts (l : list Store.event) : list (list Dest.row) :=
  omap (λ ev, match ev with Store.EvUpsert ds => Some ds | _ => None end) l.

Definition fetches (l : list Store.event) : list (option Z) :=
  omap (λ ev, match ev with Store.EvFetch c => Some c | _ => None end) l.

Definition sleeps (l : list Store.event) : list Z :=
  omap (λ ev, match ev with Store.EvSleep ms => Some ms | _ => None end) l.

(** The log of [n] write attempts with the pause between two of them,
    newest first. *)
Fixpoint retry_log (data : list Dest.row) (n : nat) : list Store.event :=
  match n with
  | O => []
  | S O => [Store.EvUpsert data]
  | S n' =>
      Store.EvUpsert data :: Store.EvSleep Prefilter.RETRY_DELAY
        :: retry_log data n'
  end.

(** The world after a call logged as [ev] took one fault off the list. *)
Definition called (ev : Store.event) (rest : list Store.fault)
    (w : Store.world) : Store.world :=
  {| Store.source := Store.source w; Store.dest := Store.dest w;
     Store.faults := rest; Store.log := ev :: Store.log w |}.

(** The next three calls of the client all fail. *)
Definition fails (f : Store.fault) : bool :=
  match f with Store.NoFault => false | _ => true end.

Fixpoint failures (n : nat) (fs : list Store.fault) : bool :=
  match n, fs with
  | O, _ => true
  | S n', f :: rest => fails f && failures n' rest
  | S _, [] => false
  end.

Definition three_failures (fs : list Store.fault) : bool := failures 3 fs.

(** A destination that holds id 2, already indexed, under a source that
    holds id 2; the fetch succeeds, the existence check resolves with an
    error payload, the write succeeds. *)
Definition resynced_world : Store.world :=
  {| Store.source := [plain_row 2];
     Store.dest := {[ 2 := synced_row 2 true ]};
     Store.faults :=
       [ Store.NoFault;
         Store.ErrorPayload {| JS.message := "URI too long" |};
         Store.NoFault ];
     Store.log := [] |}.

(** The log after [n] fetches in a row from [cursor] on, one page width
    apart. *)
Fixpoint skip_log (n : nat) (cursor : Z) (l : list Store.event)
    : list Store.event :=
  match n with
  | O => l
  | S n' =>
      skip_log n' (cursor + Z.of_nat BATCH_SIZE)
        (Store.EvFetch (Some cursor) :: l)
  end.

(** The source of the end-to-end scenario of the specification: ids 1, 2
    and 3, the text of row 2 naming a start date and a duration; an empty
    destination; a datastore that does not fail. *)
Definition scenario_world : Store.world :=
  {| Store.source :=
       [ plain_row 1;
         dated_row 2
           (JS.VStr "Started running on 1 Feb 2024. Total active time 10 hrs.");
         plain_row 3 ];
     Store.dest := ∅;
     Store.faults := [];
     Store.log := [] |}.

(** What bounds the turns the loop of the upsert script has left: the rows
    after the cursor and the failures the threshold still allows. *)
Definition turns_left (st : counters) (w : Store.world) : nat :=
  (length (pending (lastId st) (Store.source w))
   + Z.to_nat (11 - totalErrors st))%nat.

(** The number of pages [n] rows make: [n / BATCH_SIZE], rounded up. *)
Definition pages (n : nat) : nat :=
  ((n + (BATCH_SIZE - 1)) / BATCH_SIZE)%nat.

(** The log after [n] fetches with the same filter, each followed by the
    pause of the connection-error branch. *)
Fixpoint wait_log (n : nat) (after : option Z) (l : list Store.event)
    : list Store.event :=
  match n with
  | O => l
  | S n' =>
      wait_log n' after (Store.EvSleep 2000 :: Store.EvFetch after :: l)
  end.


(** What bounds the turns of the sibling script: the rows beyond the cursor
    and the failures the datastore still holds. *)
Definition work_left (st : counters) (w : Store.world) : nat :=
  (length (pending (lastId st) (Store.source w)) + length (Store.faults w))%nat.

(** * Properties *)

Import JS JSDate Transform Store.

(** ** The date and duration sub-parser *)

Section ParseAdDate.

(** In a process whose local time is UTC the five vectors of the
    specification hold. *)
Lemma parseAdDate_vectors_utc :
  parseAdDate 0 VNull = parsed None None
  ∧ parseAdDate 0 (VStr "Started running on 5 Jan 2023")
    = parsed (Some "2023-01-05"%string) None
  ∧ parseAdDate 0 (VStr "Total active time 48 hrs") = parsed None (Some 48)
  ∧ parseAdDate 0
      (VStr "Started running on 5 Jan 2023. Total active time 48 hrs.")
    = parsed (Some "2023-01-05"%string) (Some 48)
  ∧ parseAdDate 0 (VStr "Started running on 35 Foo 2023") = parsed None None.
Proof. repeat split; vm_compute; reflexivity. Qed.

(** The vectors without a date do not depend on the time zone, and a
    malformed date token gives null in every time zone. *)
Lemma parseAdDate_vectors_any_zone tz :
  parseAdDate tz VNull = parsed None None
  ∧ parseAdDate tz (VStr "Total active time 48 hrs") = parsed None (Some 48)
  ∧ parseAdDate tz (VStr "Started running on 35 Foo 2023") = parsed None None.
Proof. repeat split; reflexivity. Qed.

(** On a string, or on a falsy value, [parseAdDate] returns. *)
Lemma parseAdDate_returns tz (v : value) :
  truthy v = false ∨ (∃ s, v = VStr s) → ∃ p, parseAdDate tz v = Ok p.
Proof.
  intros [Hf | [s ->]]; unfold parseAdDate.
  - rewrite Hf. simpl. eauto.
  - destruct (negb (truthy (VStr s))); eauto.
Qed.

(** On a truthy value that is not a string it throws. *)
Lemma parseAdDate_throws tz (v : value) :
  truthy v = true → (∀ s, v ≠ VStr s) → ∃ e, parseAdDate tz v = Throws e.
Proof.
  intros Ht Hs. unfold parseAdDate. rewrite Ht. simpl.
  destruct v; try (eexists; reflexivity). exfalso. by apply (Hs s).
Qed.

(** The two extractions are independent: each field is a function of its
    own pattern's match alone. *)
Lemma parseAdDate_independent tz (s : string) p :
  parseAdDate tz (VStr s) = Ok p →
  Parsed.ad_date p
    = (tok ← regex_match re_date s;
       t ← Date_getTime tz tok;
       Some (before_T (toISOString t)))
  ∧ Parsed.active_time_hr p = (regex_match re_time s ≫= parseInt_str).
Proof.
  unfold parseAdDate. destruct (negb (truthy (VStr s))) eqn:E.
  - destruct s; [|discriminate]. intros [= <-]. split; reflexivity.
  - intros [= <-]. simpl. split.
    + destruct (regex_match re_date s) as [tok|]; [|done]. simpl.
      by destruct (Date_getTime tz tok).
    + by destruct (regex_match re_time s).
Qed.

(** [before_T] stops at the first T: nothing of the time of day or of the
    zone designator is left in the result. *)
Lemma before_T_no_T (s : string) c :
  In c (list_ascii_of_string (before_T s)) → c ≠ "T"%char.
Proof.
  induction s as [|a s IH]; simpl; [tauto|].
  destruct (Ascii.eqb a "T") eqn:E; simpl; [tauto|].
  intros [<- | H]; [|by apply IH].
  intros ->. by rewrite Ascii.eqb_refl in E.
Qed.

(** *** The printed date is the UTC calendar day, and nothing else *)

Lemma all_digits_append a b :
  all_digits (String.append a b) = all_digits a && all_digits b.
Proof.
  induction a as [|c a IH]; simpl; [done|]. by rewrite IH, andb_assoc.
Qed.

Lemma is_digit_of_mod (n : Z) :
  is_digit (ascii_of_nat (Z.to_nat (48 + n mod 10))) = true.
Proof.
  pose proof (Z.mod_pos_bound n 10 ltac:(lia)) as Hm.
  unfold is_digit, code. rewrite nat_ascii_embedding by lia.
  rewrite Z2Nat.id by lia.
  apply andb_true_iff. split; apply Z.leb_le; lia.
Qed.

Lemma digits_aux_all_digits fuel n acc :
  all_digits acc = true → all_digits (digits_aux fuel n acc) = true.
Proof.
  revert n acc. induction fuel as [|fuel IH]; intros n acc Hacc; simpl; [done|].
  assert (all_digits (String (ascii_of_nat (Z.to_nat (48 + n mod 10))) acc) = true)
    as Hnew by (simpl; by rewrite is_digit_of_mod, Hacc).
  destruct (n / 10 =? 0); [done|]. by apply IH.
Qed.

Lemma zeros_all_digits k : all_digits (zeros k) = true.
Proof. induction k; simpl; [done|]. by rewrite IHk. Qed.

Lemma pad_all_digits width n : all_digits (pad width n) = true.
Proof.
  unfold pad, decimal. rewrite all_digits_append, zeros_all_digits.
  by rewrite digits_aux_all_digits.
Qed.

Lemma before_T_digits (p q : string) :
  all_digits p = true →
  before_T (String.append p q) = String.append p (before_T q).
Proof.
  induction p as [|c p IH]; simpl; [done|].
  intros [Hc Hp]%andb_true_iff.
  destruct (Ascii.eqb c "T") eqn:E.
  - apply Ascii.eqb_eq in E. subst c. discriminate.
  - by rewrite IH.
Qed.

Lemma before_T_iso_year y q :
  before_T (String.append (iso_year y) q)
  = String.append (iso_year y) (before_T q).
Proof.
  unfold iso_year.
  destruct ((0 <=? y) && (y <=? 9999)); [|destruct (y <? 0)]; simpl;
    by rewrite before_T_digits by apply pad_all_digits.
Qed.

Lemma append_empty_r (s : string) : String.append s EmptyString = s.
Proof.
  induction s as [|c s IH]; [done|].
  change (String c (String.append s EmptyString) = String c s). by rewrite IH.
Qed.

Lemma concat_empty_cons (x : string) (l : list string) :
  String.concat EmptyString (x :: l) = String.append x (String.concat EmptyString l).
Proof. destruct l; simpl; [symmetry; apply append_empty_r | done]. Qed.

Lemma before_T_dash (q : string) :
  before_T (String.append "-" q) = String.append "-" (before_T q).
Proof. reflexivity. Qed.

(** [toISOString(t).split('T')[0]] is year, month and day of the UTC day
    of [t], and no more. *)
Lemma iso_date_only (t : Z) :
  before_T (toISOString t)
  = let '(y, m, d) := civil_from_days (t / msPerDay) in
    String.concat EmptyString [iso_year y; "-"; pad 2 m; "-"; pad 2 d]%string.
Proof.
  unfold toISOString. destruct (civil_from_days (t / msPerDay)) as [[y m] d].
  rewrite !concat_empty_cons.
  rewrite before_T_iso_year, before_T_dash.
  rewrite (before_T_digits (pad 2 m)) by apply pad_all_digits.
  rewrite before_T_dash.
  rewrite (before_T_digits (pad 2 d)) by apply pad_all_digits.
  reflexivity.
Qed.

(** The second vector holds exactly in the zones at or west of UTC: there
    the UTC day of local midnight is the same day, east of UTC it is the
    day before. *)
Lemma second_vector_by_zone tz :
  -1440 < tz < 1440 →
  parseAdDate tz (VStr "Started running on 5 Jan 2023")
  = parsed (Some (if tz <=? 0 then "2023-01-05"%string else "2023-01-04"%string))
      None.
Proof.
  intros Htz.
  change (parseAdDate tz (VStr "Started running on 5 Jan 2023"))
    with (parsed
            (Some (before_T (toISOString (1672876800000 - tz * 60000)))) None).
  do 2 f_equal. rewrite iso_date_only.
  destruct (tz <=? 0) eqn:E; [apply Z.leb_le in E | apply Z.leb_gt in E].
  - replace ((1672876800000 - tz * 60000) / msPerDay) with 19362; [reflexivity|].
    apply Z.div_unique_pos with (- tz * 60000); unfold msPerDay; lia.
  - replace ((1672876800000 - tz * 60000) / msPerDay) with 19361; [reflexivity|].
    apply Z.div_unique_pos with (86400000 - tz * 60000); unfold msPerDay; lia.
Qed.

End ParseAdDate.

(** C1 (the code departs from it).  The second vector of the specification,
    in a process whose local time is seven hours east of UTC: the text is
    read as local midnight and printed in UTC, which is still the day
    before. *)
Theorem parseAdDate_east_of_utc_is_a_day_early :
  parseAdDate 420 (VStr "Started running on 5 Jan 2023")
  = Ok {| Parsed.ad_date := Some "2023-01-04"%string;
          Parsed.active_time_hr := None |}.
Proof. vm_compute. reflexivity. Qed.

(** ** The row transformer *)

Section TransformRow.

Variable tz : Z.

Lemma transformRow_inv row d :
  transformRow tz row = Ok d →
  ∃ p, parseAdDate tz (Src.ad_date row) = Ok p
       ∧ Dest.id d = Src.id row
       ∧ Dest.ad_id d = int_or_null (Src.ad_id row)
       ∧ Dest.ad_risk_level d = int_or_null (Src.ad_risk_level row)
       ∧ Dest.request_id d = int_or_null (Src.request_id row)
       ∧ Dest.ad_date d = Parsed.ad_date p
       ∧ Dest.active_time_hr d = Parsed.active_time_hr p
       ∧ Dest.opensearch_sync d = false.
Proof.
  unfold transformRow.
  destruct (parseAdDate tz (Src.ad_date row)) as [p|e]; [|discriminate].
  intros [= <-]. exists p. simpl. tauto.
Qed.

(** What [row.f ? parseInt(row.f, 10) || null : null] yields: the parsed
    integer when there is one and it is not zero, null otherwise. *)
Lemma int_or_null_Some v n :
  int_or_null v = Some n ↔ truthy v = true ∧ parseInt v = Some n ∧ n ≠ 0.
Proof.
  unfold int_or_null, num_or_null.
  destruct (truthy v); [|split; [discriminate | intros [? _]; discriminate]].
  destruct (parseInt v) as [k|]; [|split; [discriminate | intros (_ & ? & _); discriminate]].
  destruct (k =? 0) eqn:E.
  - apply Z.eqb_eq in E. subst k.
    split; [discriminate | intros (_ & [= <-] & H); congruence].
  - apply Z.eqb_neq in E.
    split; [intros [= <-]; done | intros (_ & [= <-] & _); done].
Qed.

Lemma int_or_null_None v :
  int_or_null v = None
  ↔ truthy v = false ∨ parseInt v = None ∨ parseInt v = Some 0.
Proof.
  unfold int_or_null, num_or_null.
  destruct (truthy v); [|split; auto].
  destruct (parseInt v) as [k|]; [|split; auto].
  destruct (k =? 0) eqn:E.
  - apply Z.eqb_eq in E. subst k. split; auto.
  - apply Z.eqb_neq in E.
    split; [discriminate|]. intros [?|[?|[= ->]]]; done.
Qed.

Lemma map_transformRow_Forall2 rows ds :
  map_transformRow tz rows = Ok ds →
  Forall2 (λ r d, transformRow tz r = Ok d) rows ds.
Proof.
  revert ds. induction rows as [|r rows IH]; intros ds; simpl.
  - intros [= <-]. constructor.
  - destruct (transformRow tz r) as [d|] eqn:Hd; [|discriminate].
    destruct (map_transformRow tz rows) as [ds'|]; [|discriminate].
    intros [= <-]. constructor; [done | by apply IH].
Qed.

Lemma map_transformRow_ids rows ds :
  map_transformRow tz rows = Ok ds → map Dest.id ds = map Src.id rows.
Proof.
  intros H%map_transformRow_Forall2.
  induction H as [|r d rows ds Hd _ IH]; simpl; [done|].
  apply transformRow_inv in Hd as (_ & _ & -> & _). by rewrite IH.
Qed.

Lemma map_transformRow_length rows ds :
  map_transformRow tz rows = Ok ds → length ds = length rows.
Proof.
  intros H%map_transformRow_ids.
  by rewrite <- (length_map Dest.id), H, length_map.
Qed.

Lemma map_transformRow_sync rows ds :
  map_transformRow tz rows = Ok ds →
  Forall (λ d, Dest.opensearch_sync d = false) ds.
Proof.
  intros H%map_transformRow_Forall2.
  induction H as [|r d rows ds Hd _ IH]; constructor; [|done].
  by apply transformRow_inv in Hd as (_ & _ & _ & _ & _ & _ & _ & _ & ?).
Qed.

(** The rows a [SourceRecord] ranges over: [ad_date] is text or absent. *)
Lemma map_transformRow_returns rows :
  Forall (λ r, well_typed r) rows → ∃ ds, map_transformRow tz rows = Ok ds.
Proof.
  induction 1 as [|r rows Hr _ [ds IH]]; simpl; [eauto|].
  unfold transformRow.
  destruct (parseAdDate_returns tz (Src.ad_date r)) as [p ->].
  { destruct Hr as [-> | [s ->]]; [left | right]; eauto. }
  rewrite IH. eauto.
Qed.

End TransformRow.

(** ** Upsert into the destination table *)

Section UpsertRows.

Lemma upsert_rows_cons d ds (table : gmap Z Dest.row) :
  upsert_rows (d :: ds) table = upsert_rows ds (<[Dest.id d := d]> table).
Proof. reflexivity. Qed.

Lemma upsert_rows_app ds1 ds2 (table : gmap Z Dest.row) :
  upsert_rows (ds1 ++ ds2) table = upsert_rows ds2 (upsert_rows ds1 table).
Proof. unfold upsert_rows. by rewrite foldl_app. Qed.

(** A row whose id is not written keeps its content. *)
Lemma upsert_rows_frame ds (table : gmap Z Dest.row) k :
  k ∉ map Dest.id ds → upsert_rows ds table !! k = table !! k.
Proof.
  revert table. induction ds as [|d ds IH]; intros table Hk; [done|].
  rewrite upsert_rows_cons, IH by set_solver.
  apply lookup_insert_ne. set_solver.
Qed.

(** A written id holds one of the written rows. *)
Lemma upsert_rows_written ds (table : gmap Z Dest.row) k :
  k ∈ map Dest.id ds →
  ∃ d, upsert_rows ds table !! k = Some d ∧ d ∈ ds ∧ Dest.id d = k.
Proof.
  revert table. induction ds as [|d ds IH]; intros table Hk; [set_solver|].
  rewrite upsert_rows_cons.
  destruct (decide (k ∈ map Dest.id ds)) as [Hin|Hout].
  - destruct (IH (<[Dest.id d := d]> table) Hin) as (d' & ? & ? & ?).
    exists d'. set_solver.
  - rewrite upsert_rows_frame by done.
    assert (k = Dest.id d) as -> by set_solver.
    exists d. rewrite lookup_insert_eq. set_solver.
Qed.

(** Each row of the table afterwards is a written row or an untouched
    one. *)
Lemma upsert_rows_lookup ds (table : gmap Z Dest.row) k d :
  upsert_rows ds table !! k = Some d → d ∈ ds ∨ table !! k = Some d.
Proof.
  destruct (decide (k ∈ map Dest.id ds)) as [Hin|Hout].
  - destruct (upsert_rows_written ds table k Hin) as (d' & -> & ? & _).
    intros [= <-]. by left.
  - rewrite upsert_rows_frame by done. by right.
Qed.

End UpsertRows.

(** C2 (the code departs from it).  The text "0" in the three
    numeric-as-text fields: [parseInt] gives 0, and [0 || null] is null. *)
Theorem transformRow_text_zero_becomes_null tz :
  parseInt (VStr "0") = Some 0
  ∧ ∃ d, transformRow tz zero_row = Ok d
         ∧ Dest.ad_id d = None
         ∧ Dest.ad_risk_level d = None
         ∧ Dest.request_id d = None.
Proof. split; [reflexivity|]. eexists. split; [reflexivity|]. simpl. tauto. Qed.

(** C3.  Every record [transformRow] produces has [opensearch_sync] false,
    and after a batch is upserted every id of the batch holds such a record,
    whatever the destination held for that id before. *)
Theorem opensearch_sync_always_false tz rows ds (table : gmap Z Dest.row) :
  map_transformRow tz rows = Ok ds →
  Forall2 (λ r d, transformRow tz r = Ok d ∧ Dest.opensearch_sync d = false)
    rows ds
  ∧ ∀ r, r ∈ rows →
      ∃ d, upsert_rows ds table !! Src.id r = Some d
           ∧ Dest.opensearch_sync d = false.
Proof.
  intros H. split.
  - apply map_transformRow_Forall2 in H.
    induction H as [|r d rows ds Hd _ IH]; constructor; [|done].
    split; [done|].
    by apply transformRow_inv in Hd as (_ & _ & _ & _ & _ & _ & _ & _ & ?).
  - intros r Hr.
    destruct (upsert_rows_written ds table (Src.id r)) as (d & Hd & Hin & _).
    { rewrite (map_transformRow_ids tz rows ds H). by apply list_elem_of_fmap_2. }
    exists d. split; [done|].
    pose proof (map_transformRow_sync tz rows ds H) as Hs.
    by apply (proj1 (Forall_forall _ _) Hs).
Qed.

Lemma opensearch_sync_always_false_witness :
  ∃ d, upsert_rows [synced_row 2 false] {[ 2 := synced_row 2 true ]}
         !! 2 = Some d
       ∧ Dest.opensearch_sync d = false.
Proof.
  destruct (opensearch_sync_always_false 0 [plain_row 2] [synced_row 2 false]
              {[ 2 := synced_row 2 true ]} eq_refl) as [_ H].
  apply (H (plain_row 2)). apply list_elem_of_singleton. reflexivity.
Defined.

(** C4.  On a source record whose [ad_date] is text or absent
    [transformRow] returns a destination record, and a numeric-as-text field
    or a date that does not parse is null in it. *)
Theorem transformRow_total tz row :
  well_typed row →
  ∃ d, transformRow tz row = Ok d
       ∧ (parseInt (Src.ad_id row) = None → Dest.ad_id d = None)
       ∧ (parseInt (Src.ad_risk_level row) = None → Dest.ad_risk_level d = None)
       ∧ (parseInt (Src.request_id row) = None → Dest.request_id d = None)
       ∧ (∀ s tok, Src.ad_date row = VStr s →
            regex_match re_date s = Some tok → Date_getTime tz tok = None →
            Dest.ad_date d = None).
Proof.
  intros Hr.
  destruct (map_transformRow_returns tz [row]) as [ds Hds]; [by constructor|].
  apply map_transformRow_Forall2 in Hds.
  inversion Hds as [|? d ? ? Hd _]; subst. exists d. split; [done|].
  apply transformRow_inv in Hd as (p & Hp & _ & -> & -> & -> & -> & _).
  repeat split; try (intros E; apply int_or_null_None; auto).
  intros s tok Hs Htok Ht. rewrite Hs in Hp.
  apply parseAdDate_independent in Hp as [-> _]. by rewrite Htok; simpl; rewrite Ht.
Qed.

Lemma transformRow_total_witness :
  ∃ d, transformRow 0 (plain_row 2) = Ok d
       ∧ (parseInt (Src.ad_id (plain_row 2)) = None → Dest.ad_id d = None).
Proof.
  destruct (transformRow_total 0 (plain_row 2)) as (d & Hd & H & _).
  - right. eexists. reflexivity.
  - exists d. split; assumption.
Defined.

(** Without the typing of [ad_date] the call throws: a number in that
    column has no [match]. *)
Lemma transformRow_throws_on_number tz :
  ∃ e, transformRow tz (dated_row 2 (VNum 5)) = Throws e.
Proof. eexists. reflexivity. Qed.

(** ** Paging over the source *)

Section Paging.

#[local] Instance id_le_transitive : Transitive id_le.
Proof. unfold id_le. intros a b c. lia. Qed.

#[local] Instance id_le_total : Total id_le.
Proof. unfold id_le. intros a b. lia. Qed.

Lemma order_by_id_perm rows : order_by_id rows ≡ₚ rows.
Proof. apply merge_sort_Permutation. Qed.

Lemma order_by_id_sorted rows : StronglySorted id_le (order_by_id rows).
Proof. apply StronglySorted_merge_sort; apply _. Qed.

Lemma elem_of_order_by_id r rows : r ∈ order_by_id rows ↔ r ∈ rows.
Proof. by rewrite order_by_id_perm. Qed.

(** With a primary key the order is strict. *)
Lemma order_by_id_strict rows :
  NoDup (map Src.id rows) → StronglySorted id_lt (order_by_id rows).
Proof.
  intros Hnd.
  assert (NoDup (map Src.id (order_by_id rows))) as Hnd'.
  { by rewrite order_by_id_perm. }
  pose proof (order_by_id_sorted rows) as Hs.
  induction Hs as [|x l _ IH Hx]; [constructor|].
  simpl in Hnd'. apply NoDup_cons in Hnd' as [Hx' Hl].
  constructor; [by apply IH|].
  apply Forall_forall. intros y Hy.
  pose proof (proj1 (Forall_forall _ _) Hx y Hy) as Hle.
  assert (Src.id x ≠ Src.id y).
  { intros E. apply Hx'. rewrite E. by apply list_elem_of_fmap_2. }
  unfold id_lt, id_le in *. lia.
Qed.

Lemma filter_Forall {A} (P : A → Prop) `{!∀ x, Decision (P x)} (l : list A) :
  Forall P l → filter P l = l.
Proof.
  induction 1 as [|x l Hx _ IH]; [done|].
  by rewrite filter_cons_True, IH.
Qed.

Lemma filter_Forall_not {A} (P : A → Prop) `{!∀ x, Decision (P x)} (l : list A) :
  Forall (λ x, ¬ P x) l → filter P l = [].
Proof.
  induction 1 as [|x l Hx _ IH]; [done|].
  by rewrite filter_cons_False, IH.
Qed.

Lemma StronglySorted_filter {A} (R : relation A) (P : A → Prop)
    `{!∀ x, Decision (P x)} (l : list A) :
  StronglySorted R l → StronglySorted R (filter P l).
Proof.
  induction 1 as [|x l _ IH Hx]; [constructor|].
  destruct (decide (P x)).
  - rewrite filter_cons_True by done. constructor; [done|].
    apply Forall_forall. intros y [_ Hy]%list_elem_of_filter.
    by apply (proj1 (Forall_forall _ _) Hx).
  - by rewrite filter_cons_False.
Qed.

Lemma pending_sorted cursor rows :
  NoDup (map Src.id rows) → StronglySorted id_lt (pending cursor rows).
Proof. intros. by apply StronglySorted_filter, order_by_id_strict. Qed.

Lemma elem_of_pending cursor rows r :
  r ∈ pending cursor rows ↔ cursor < Src.id r ∧ r ∈ rows.
Proof. unfold pending. by rewrite list_elem_of_filter, elem_of_order_by_id. Qed.

Lemma page_Some cursor n rows :
  page (Some cursor) n rows = take n (pending cursor rows).
Proof. reflexivity. Qed.

(** A page at or after cursor 0 holds positive ids only. *)
Lemma page_after_positive cursor n rows r :
  0 ≤ cursor → r ∈ page (Some cursor) n rows → 0 < Src.id r.
Proof.
  intros Hc Hr. rewrite page_Some in Hr.
  apply subseteq_take, elem_of_pending in Hr as [? _]. lia.
Qed.

(** The first row in fetch order has the least id. *)
Lemma order_by_id_head_least rows r :
  r ∈ rows → ∃ h t, order_by_id rows = h :: t ∧ Src.id h ≤ Src.id r.
Proof.
  intros Hr%elem_of_order_by_id.
  pose proof (order_by_id_sorted rows) as Hs.
  destruct (order_by_id rows) as [|h t]; [by apply not_elem_of_nil in Hr|].
  exists h, t. split; [done|].
  apply StronglySorted_cons in Hs as [Hh _].
  apply elem_of_cons in Hr as [-> | Hr]; [lia|].
  by apply (proj1 (Forall_forall _ _) Hh).
Qed.

(** Without the filter a row at or below 0 shows on the first page. *)
Lemma page_unfiltered_nonpositive n rows :
  (0 < n)%nat → Exists (λ r, Src.id r ≤ 0) rows →
  ∃ r, r ∈ page None n rows ∧ Src.id r ≤ 0.
Proof.
  intros Hn (r & Hr & Hid)%Exists_exists.
  destruct (order_by_id_head_least rows r Hr) as (h & t & E & Hh).
  exists h. split; [|lia].
  unfold page. rewrite E. destruct n; [lia|]. simpl. by left.
Qed.

End Paging.

(** C10.  At a cursor the upsert script can hold, the two scripts fetch the
    same page exactly when the cursor is past 0 or no source id is at or
    below 0; the upsert script never fetches a row whose id is at or below
    0, and the sibling's unfiltered first page shows one when there is
    one. *)
Theorem fetchers_agree_iff_ids_positive (st : counters) (rows : list Src.row) :
  0 ≤ lastId st →
  (page (Upsert.after st) BATCH_SIZE rows
   = page (Prefilter.after st) BATCH_SIZE rows
   ↔ 0 < lastId st ∨ Forall (λ r, 0 < Src.id r) rows)
  ∧ (∀ r, r ∈ page (Upsert.after st) BATCH_SIZE rows → 0 < Src.id r)
  ∧ (lastId st = 0 → Exists (λ r, Src.id r ≤ 0) rows →
     ∃ r, r ∈ page (Prefilter.after st) BATCH_SIZE rows ∧ Src.id r ≤ 0).
Proof.
  intros Hc. unfold Upsert.after, Prefilter.after.
  split; [|split].
  - destruct (0 <? lastId st) eqn:E;
      [apply Z.ltb_lt in E | apply Z.ltb_ge in E].
    { split; [by left | done]. }
    assert (lastId st = 0) as -> by lia.
    split.
    + intros Heq.
      destruct (decide (Forall (λ r, 0 < Src.id r) rows)) as [|Hn]; [by right|].
      exfalso. apply not_Forall_Exists in Hn; [|apply _].
      destruct (page_unfiltered_nonpositive BATCH_SIZE rows) as (r & Hr & Hid).
      { unfold BATCH_SIZE. lia. }
      { eapply Exists_impl; [exact Hn|]. simpl. intros; lia. }
      rewrite <- Heq in Hr.
      apply page_after_positive in Hr; lia.
    + intros [?|Hall]; [lia|].
      unfold page. f_equal. apply filter_Forall.
      apply Forall_forall. intros r Hr. rewrite elem_of_order_by_id in Hr.
      by apply (proj1 (Forall_forall _ _) Hall).
  - intros r. by apply page_after_positive.
  - intros -> Hex. simpl.
    apply page_unfiltered_nonpositive; [unfold BATCH_SIZE; lia | done].
Qed.

Lemma fetchers_agree_iff_ids_positive_witness :
  page (Upsert.after initial) BATCH_SIZE [plain_row 0; plain_row 1]
  ≠ page (Prefilter.after initial) BATCH_SIZE [plain_row 0; plain_row 1].
Proof.
  destruct (fetchers_agree_iff_ids_positive initial [plain_row 0; plain_row 1])
    as [[H _] _]; [simpl; lia|].
  intros Heq. destruct (H Heq) as [Hl | Hall]; [simpl in Hl; lia|].
  inversion Hall as [|? ? H0 _]. simpl in H0. lia.
Defined.

(** ** Calls of the client *)

Section Calls.

Context {A : Type} (ev : event) (run : world → A * world).

Lemma call_faulty w f rest :
  faults w = f :: rest →
  call ev run w
  = match f with
    | NoFault =>
        let '(a, w') := run (called ev rest w) in
        (Ret {| data := Some a; error := None |}, w')
    | ErrorPayload e => (Ret {| data := None; error := Some e |}, called ev rest w)
    | Rejects e => (Raise e, called ev rest w)
    end.
Proof.
  intros H. unfold call, next_fault, record, called. simpl. rewrite H.
  by destruct f.
Qed.

Lemma call_clean w :
  faults w = [] →
  call ev run w
  = let '(a, w') := run (called ev [] w) in
    (Ret {| data := Some a; error := None |}, w').
Proof.
  intros H. unfold call, next_fault, record, called. simpl. by rewrite H.
Qed.

End Calls.

(** Sequencing, by the outcome of the first computation. *)
Lemma bind_Ret {A B} (m : M A) (k : A → M B) w a w' :
  m w = (Ret a, w') → bind m k w = k a w'.
Proof. intros H. unfold bind. by rewrite H. Qed.

Lemma bind_Raise {A B} (m : M A) (k : A → M B) w e w' :
  m w = (Raise e, w') → bind m k w = (Raise e, w').
Proof. intros H. unfold bind. by rewrite H. Qed.

Lemma bind_Exit {A B} (m : M A) (k : A → M B) w c w' :
  m w = (Exit c, w') → bind m k w = (Exit c, w').
Proof. intros H. unfold bind. by rewrite H. Qed.

(** ** Skip-and-advance *)

Section SkipAndAdvance.

Variable tz : Z.

Lemma upsert_iteration_fetch_error st w e rest :
  faults w = ErrorPayload e :: rest →
  Upsert.iteration tz st w
  = (Ret ((if 10 <? totalErrors st + 1 then Break else Continue) (skip_page st)),
     called (EvFetch (Some (lastId st))) rest w).
Proof.
  intros H. unfold Upsert.iteration, bind, select_source.
  rewrite (call_faulty _ _ w _ rest H). simpl.
  by destruct (10 <? totalErrors st + 1).
Qed.

(** A run of fetch errors that brings the count to eleven: the loop stops
    at the last of them, having fetched once for each. *)
Lemma upsert_loop_skips es : ∀ st w rest fuel,
  es ≠ [] →
  faults w = map ErrorPayload es ++ rest →
  totalErrors st + Z.of_nat (length es) = 11 →
  (length es ≤ fuel)%nat →
  loop (Upsert.iteration tz) fuel st w
  = (Ret {| totalProcessed := totalProcessed st;
            totalUpserted := totalUpserted st;
            totalErrors := 11;
            lastId := lastId st + 1000 * Z.of_nat (length es) |},
     {| source := source w; dest := dest w; faults := rest;
        log := skip_log (length es) (lastId st) (log w) |}).
Proof.
  induction es as [|e es IH]; intros st w rest fuel Hne Hfs Herr Hfuel; [done|].
  destruct fuel as [|fuel]; [simpl in Hfuel; lia|].
  simpl loop. unfold bind.
  rewrite (upsert_iteration_fetch_error st w e (map ErrorPayload es ++ rest) Hfs).
  destruct es as [|e' es].
  - simpl in Herr. assert (totalErrors st = 10) as E by lia.
    rewrite E. simpl. unfold ret, skip_page. rewrite E.
    replace (lastId st + 1000 * Z.of_nat 1)
      with (lastId st + Z.of_nat BATCH_SIZE) by (unfold BATCH_SIZE; lia).
    reflexivity.
  - assert ((10 <? totalErrors st + 1) = false) as ->.
    { apply Z.ltb_ge. simpl length in Herr. lia. }
    rewrite (IH (skip_page st) _ rest fuel); try done.
    + simpl totalProcessed. simpl totalUpserted. simpl lastId.
      replace (lastId st + Z.of_nat BATCH_SIZE
               + 1000 * Z.of_nat (length (e' :: es)))
        with (lastId st + 1000 * Z.of_nat (length (e :: e' :: es)))
        by (unfold BATCH_SIZE; simpl length; lia).
      reflexivity.
    + simpl totalErrors. simpl length in *. lia.
    + simpl length in *. lia.
Qed.

(** The count of the destination leaves the tables alone. *)
Lemma count_dest_world w :
  ∃ o, count_dest w = (o, called EvCountDest (tail (faults w)) w)
       ∧ (∀ c, o ≠ Exit c) ∧ o ≠ OutOfFuel.
Proof.
  unfold count_dest.
  destruct (faults w) as [|[|e|e] rest] eqn:E.
  - rewrite call_clean by done. eexists. split; [reflexivity|]. done.
  - rewrite (call_faulty _ _ w _ rest E). eexists. split; [reflexivity|]. done.
  - rewrite (call_faulty _ _ w _ rest E). eexists. split; [reflexivity|]. done.
  - rewrite (call_faulty _ _ w _ rest E). eexists. split; [reflexivity|]. done.
Qed.

End SkipAndAdvance.

(** C8.  A fetch that resolves with an error moves the cursor on by one page
    width and counts the failure, going on while the count is at most 10;
    when the first eleven fetches of a run fail, the loop ends at the
    eleventh, no batch has been written, and the process exits with
    status 1. *)
Theorem skip_and_advance_threshold tz :
  (∀ st w e rest,
     faults w = ErrorPayload e :: rest →
     Upsert.iteration tz st w
     = (Ret ((if 10 <? totalErrors st + 1 then Break else Continue)
               {| totalProcessed := totalProcessed st;
                  totalUpserted := totalUpserted st;
                  totalErrors := totalErrors st + 1;
                  lastId := lastId st + 1000 |}),
        called (EvFetch (Some (lastId st))) rest w))
  ∧ (∀ w es rest fuel,
       length es = 11%nat →
       faults w = NoFault :: NoFault :: (map ErrorPayload es ++ rest) →
       (11 ≤ fuel)%nat →
       ∃ w',
         Upsert.run tz fuel w = (Exit 1, w')
         ∧ dest w' = dest w
         ∧ upserts (log w') = upserts (log w)
         ∧ fetches (log w')
           = map (λ k, Some (1000 * k)) [10; 9; 8; 7; 6; 5; 4; 3; 2; 1; 0]
             ++ fetches (log w)).
Proof.
  split.
  - intros st w e rest H. by rewrite (upsert_iteration_fetch_error tz st w e rest H).
  - intros w es rest fuel Hlen Hfs Hfuel.
    set (w1 := called EvCountSource (NoFault :: map ErrorPayload es ++ rest) w).
    set (w2 := called EvCountDest (map ErrorPayload es ++ rest) w1).
    assert (loop (Upsert.iteration tz) fuel initial w2
            = (Ret {| totalProcessed := 0; totalUpserted := 0;
                      totalErrors := 11; lastId := 0 + 1000 * 11 |},
               {| source := source w; dest := dest w; faults := rest;
                  log := skip_log 11 0 (log w2) |})) as Hloop.
    { pose proof (upsert_loop_skips tz es initial w2 rest fuel) as H.
      rewrite Hlen in H. apply H; try done.
      intros ->. discriminate. }
    set (w3 := {| source := source w; dest := dest w; faults := rest;
                  log := skip_log 11 0 (log w2) |}) in Hloop.
    destruct (count_dest_world w3) as (o & Hcount & Hexit & Hfuel').
    exists (called EvCountDest (tail rest) w3). split.
    + assert (count_source w
              = (Ret {| data := Some (length (source w)); error := None |}, w1))
        as Hcs.
      { unfold count_source. by rewrite (call_faulty _ _ w _ _ Hfs). }
      assert (count_dest w1
              = (Ret {| data := Some (size (dest w)); error := None |}, w2))
        as Hcd.
      { unfold count_dest.
        by rewrite (call_faulty _ _ w1 NoFault (map ErrorPayload es ++ rest)). }
      unfold Upsert.run, run, try_catch, main.
      rewrite (bind_Ret _ _ w _ w1 Hcs). cbn [error].
      rewrite (bind_Ret _ _ w1 _ w2 Hcd).
      rewrite (bind_Ret _ _ w2 _ w3 Hloop).
      destruct o as [a|e|c|].
      * by rewrite (bind_Ret _ _ w3 _ _ Hcount).
      * by rewrite (bind_Raise _ _ w3 _ _ Hcount).
      * by destruct (Hexit c).
      * done.
    + simpl. repeat split; reflexivity.
Qed.

Lemma skip_and_advance_threshold_witness :
  ∃ w',
    Upsert.run 0 11
      {| source := [plain_row 1]; dest := ∅;
         faults := NoFault :: NoFault
                   :: replicate 11 (ErrorPayload {| message := "502" |});
         log := [] |}
    = (Exit 1, w')
    ∧ dest w' = ∅.
Proof.
  destruct (skip_and_advance_threshold 0) as [_ H].
  destruct (H {| source := [plain_row 1]; dest := ∅;
                 faults := NoFault :: NoFault
                           :: replicate 11 (ErrorPayload {| message := "502" |});
                 log := [] |}
              (replicate 11 {| message := "502" |}) [] 11%nat)
    as (w' & Hrun & Hdest & _); [reflexivity | reflexivity | lia |].
  exists w'. split; assumption.
Defined.

(** ** The bounded retry of the write *)

Section Retry.

Ltac retry_case n :=
  eexists; eexists; exists n; split; [reflexivity|];
  simpl; repeat split; try reflexivity; try lia;
  try (intros; discriminate); try (intros ? [= <-]; repeat split; reflexivity).

(** [upsertWithRetry] returns after one, two or three attempts, a pause of
    [RETRY_DELAY] before each but the first; it reports success with the
    batch written, or, after the third attempt only, the error of that
    attempt with the table as it was. *)
Lemma upsertWithRetry_cases (data : list Dest.row) (w : world) :
  ∃ res w' n,
    Prefilter.upsertWithRetry data Prefilter.MAX_RETRIES w = (Ret (Some res), w')
    ∧ (1 ≤ n ≤ 3)%nat
    ∧ log w' = retry_log data n ++ log w
    ∧ faults w' = drop n (faults w)
    ∧ source w' = source w
    ∧ Prefilter.success res = negb (three_failures (faults w))
    ∧ (Prefilter.retry_error res = None →
       Prefilter.success res = true ∧ dest w' = upsert_rows data (dest w))
    ∧ (∀ e, Prefilter.retry_error res = Some e →
       Prefilter.success res = false ∧ n = 3%nat ∧ dest w' = dest w).
Proof.
  destruct w as [src d fs lg].
  destruct fs as [|[|e1|e1] fs].
  1-2: retry_case constr:(1%nat).
  all: destruct fs as [|[|e2|e2] fs].
  1-2, 5-6: retry_case constr:(2%nat).
  all: destruct fs as [|[|e3|e3] fs]; retry_case constr:(3%nat).
Qed.

(** The rest of the turn after the filter, on a batch that is not empty:
    whatever the three attempts give, the turn ends with [continue], the
    cursor on the last row of the page. *)
Lemma write_new_continues rows newRecords st w r :
  newRecords ≠ [] → last rows = Some r →
  ∃ res w' n,
    Prefilter.upsertWithRetry newRecords Prefilter.MAX_RETRIES w
    = (Ret (Some res), w')
    ∧ Prefilter.write_new rows newRecords st w
      = (Ret (Continue
                {| totalProcessed := totalProcessed st + Z.of_nat (length rows);
                   totalUpserted :=
                     match Prefilter.retry_error res with
                     | Some _ => totalUpserted st
                     | None =>
                         totalUpserted st + Z.of_nat (length newRecords)
                     end;
                   totalErrors :=
                     match Prefilter.retry_error res with
                     | Some _ => totalErrors st + 1
                     | None => totalErrors st
                     end;
                   lastId := Src.id r |}), w')
    ∧ (1 ≤ n ≤ 3)%nat
    ∧ log w' = retry_log newRecords n ++ log w
    ∧ faults w' = drop n (faults w)
    ∧ source w' = source w
    ∧ (Prefilter.retry_error res = None →
       three_failures (faults w) = false
       ∧ dest w' = upsert_rows newRecords (dest w))
    ∧ (∀ e, Prefilter.retry_error res = Some e →
       three_failures (faults w) = true ∧ n = 3%nat ∧ dest w' = dest w).
Proof.
  intros Hne Hlast.
  destruct (upsertWithRetry_cases newRecords w)
    as (res & w' & n & Hrun & Hn & Hlog & Hfs & Hsrc & H3 & Hok & Hko).
  exists res, w', n. split; [done|]. split.
  - unfold Prefilter.write_new. destruct newRecords as [|d ds]; [done|].
    unfold bind at 1. rewrite Hrun.
    unfold bind, advance. rewrite Hlast. unfold ret.
    by destruct (Prefilter.retry_error res).
  - repeat split; try done; try lia.
    + destruct (Hok H) as [Hs _]. rewrite Hs in H3.
      by destruct (three_failures (faults w)).
    + by apply Hok.
    + destruct (Hko e H) as [Hs _]. rewrite Hs in H3.
      by destruct (three_failures (faults w)).
    + by destruct (Hko e) as (_ & ? & _).
    + by destruct (Hko e) as (_ & _ & ?).
Qed.

End Retry.

(** C7.  The write of a batch is attempted at most [MAX_RETRIES] = 3 times
    with a pause of 1000 ms before each further attempt; a failure is
    reported only after the third attempt, is counted in [totalErrors]
    without an exception or an exit, and the turn ends with [continue] and
    the cursor on the last row of the page. *)
Theorem upsert_retry_bounded (rows : list Src.row) (newRecords : list Dest.row)
    (st : counters) (w : world) (r : Src.row) :
  newRecords ≠ [] → last rows = Some r →
  ∃ st' w' n,
    Prefilter.write_new rows newRecords st w = (Ret (Continue st'), w')
    ∧ (1 ≤ n ≤ Z.to_nat Prefilter.MAX_RETRIES)%nat
    ∧ log w' = retry_log newRecords n ++ log w
    ∧ length (upserts (retry_log newRecords n)) = n
    ∧ sleeps (retry_log newRecords n) = replicate (n - 1) 1000
    ∧ lastId st' = Src.id r
    ∧ totalProcessed st' = totalProcessed st + Z.of_nat (length rows)
    ∧ (if three_failures (faults w)
       then totalErrors st' = totalErrors st + 1
            ∧ totalUpserted st' = totalUpserted st
            ∧ dest w' = dest w
            ∧ n = 3%nat
       else totalErrors st' = totalErrors st
            ∧ totalUpserted st'
              = totalUpserted st + Z.of_nat (length newRecords)
            ∧ dest w' = upsert_rows newRecords (dest w)).
Proof.
  intros Hne Hlast.
  destruct (write_new_continues rows newRecords st w r Hne Hlast)
    as (res & w' & n & _ & Hrun & Hn & Hlog & _ & _ & Hok & Hko).
  eexists _, w', n. split; [exact Hrun|]. simpl.
  split; [exact Hn|]. split; [exact Hlog|].
  split; [|split].
  { destruct n as [|[|[|[|n]]]]; try lia; reflexivity. }
  { destruct n as [|[|[|[|n]]]]; try lia; reflexivity. }
  split; [done|]. split; [done|].
  destruct (Prefilter.retry_error res) as [e|].
  - destruct (Hko e eq_refl) as (-> & ? & ?). done.
  - destruct (Hok eq_refl) as (-> & ?). done.
Qed.

Lemma upsert_retry_bounded_witness :
  ∃ st' w',
    Prefilter.write_new [plain_row 2] [synced_row 2 false] initial
      {| source := [plain_row 2]; dest := ∅;
         faults := replicate 3 (ErrorPayload {| message := "timeout" |});
         log := [] |}
    = (Ret (Continue st'), w')
    ∧ lastId st' = 2
    ∧ totalErrors st' = 0 + 1.
Proof.
  destruct (upsert_retry_bounded [plain_row 2] [synced_row 2 false] initial
              {| source := [plain_row 2]; dest := ∅;
                 faults := replicate 3 (ErrorPayload {| message := "timeout" |});
                 log := [] |} (plain_row 2))
    as (st' & w' & n & Hrun & _ & _ & _ & _ & Hid & _ & Hend);
    [discriminate | reflexivity |].
  exists st', w'. split; [assumption|]. split; [assumption|].
  simpl in Hend. apply Hend.
Defined.

(** ** The pre-filter *)

Section PreFilter.

Variable tz : Z.

Lemma call_ok {A} ev (run : world → A * world) w :
  hd NoFault (faults w) = NoFault →
  call ev run w
  = let '(a, w') := run (called ev (tail (faults w)) w) in
    (Ret {| data := Some a; error := None |}, w').
Proof.
  destruct (faults w) as [|f rest] eqn:E; simpl.
  - intros _. by apply call_clean.
  - intros ->. by rewrite (call_faulty ev run w NoFault rest E).
Qed.

(** The existence check, by the outcome of its call. *)
Lemma check_existing_ok ids st w :
  hd NoFault (faults w) = NoFault →
  Prefilter.check_existing ids st w
  = (Ret (inr (Some (filter (λ i, is_Some (dest w !! i)) ids))),
     called (EvExisting ids) (tail (faults w)) w).
Proof.
  intros H. unfold Prefilter.check_existing, try_catch, bind, select_existing.
  by rewrite call_ok.
Qed.

Lemma check_existing_error_payload ids st w e rest :
  faults w = ErrorPayload e :: rest →
  Prefilter.check_existing ids st w
  = (Ret (inr None), called (EvExisting ids) rest w).
Proof.
  intros H. unfold Prefilter.check_existing, try_catch, bind, select_existing.
  by rewrite (call_faulty _ _ w _ rest H).
Qed.

Lemma check_existing_rejects ids st w e rest :
  faults w = Rejects e :: rest →
  Prefilter.check_existing ids st w
  = if Prefilter.is_connection_error e
    then (Ret (inl (Continue st)),
          record (EvSleep 2000) (called (EvExisting ids) rest w))
    else (Exit 1, called (EvExisting ids) rest w).
Proof.
  intros H. unfold Prefilter.check_existing, try_catch, bind, select_existing.
  rewrite (call_faulty _ _ w _ rest H). unfold Prefilter.retry_or_exit.
  by destruct (Prefilter.is_connection_error e).
Qed.

Lemma filter_ext_in {A} (P Q : A → Prop) `{!∀ x, Decision (P x)}
    `{!∀ x, Decision (Q x)} (l : list A) :
  (∀ x, x ∈ l → P x ↔ Q x) → filter P l = filter Q l.
Proof.
  induction l as [|x l IH]; intros Hiff; [done|].
  rewrite !filter_cons, IH by (intros y Hy; apply Hiff; by right).
  pose proof (Hiff x ltac:(by left)) as Hx.
  destruct (decide (P x)), (decide (Q x)); tauto || done.
Qed.

(** With no list of existing ids nothing is filtered out. *)
Lemma new_records_None ds : Prefilter.new_records None ds = ds.
Proof.
  unfold Prefilter.new_records. simpl. apply filter_Forall.
  apply Forall_forall. intros d _. set_solver.
Qed.

(** With the list the check returns, the new records are those whose id
    the destination lacks. *)
Lemma new_records_checked (table : gmap Z Dest.row) ids ds :
  map Dest.id ds = ids →
  Prefilter.new_records (Some (filter (λ i, is_Some (table !! i)) ids)) ds
  = filter (λ d, table !! Dest.id d = None) ds.
Proof.
  intros <-. unfold Prefilter.new_records. simpl.
  apply filter_ext_in. intros d Hd.
  rewrite elem_of_list_to_set, list_elem_of_filter, eq_None_not_Some.
  assert (Dest.id d ∈ map Dest.id ds) by (by apply list_elem_of_fmap_2).
  tauto.
Qed.

(** A turn whose fetch succeeds with a page that is not empty and whose
    rows transform: what is left is the check and the write. *)
Lemma prefilter_iteration_fetched st w rows ds :
  hd NoFault (faults w) = NoFault →
  page (Prefilter.after st) BATCH_SIZE (source w) = rows → rows ≠ [] →
  map_transformRow tz rows = Ok ds →
  Prefilter.iteration tz st w
  = bind (Prefilter.check_existing (map Src.id rows) st)
      (λ checked,
         match checked with
         | inl again => ret again
         | inr existingRecords =>
             Prefilter.write_new rows
               (Prefilter.new_records existingRecords ds) st
         end)
      (called (EvFetch (Prefilter.after st)) (tail (faults w)) w).
Proof.
  intros Hf Hpage Hne Hds.
  unfold Prefilter.iteration, select_source.
  unfold bind at 1. rewrite call_ok by done. simpl.
  rewrite Hpage. destruct rows as [|r rows]; [done|].
  unfold bind at 1. unfold lift. rewrite Hds. reflexivity.
Qed.

Lemma prefilter_iteration_empty st w :
  hd NoFault (faults w) = NoFault →
  page (Prefilter.after st) BATCH_SIZE (source w) = [] →
  Prefilter.iteration tz st w
  = (Ret (Break st),
     called (EvFetch (Prefilter.after st)) (tail (faults w)) w).
Proof.
  intros Hf Hpage. unfold Prefilter.iteration, select_source.
  unfold bind at 1. rewrite call_ok by done. simpl. by rewrite Hpage.
Qed.

Lemma transformed_nonempty rows ds :
  rows ≠ [] → map_transformRow tz rows = Ok ds → ds ≠ [].
Proof.
  intros Hne Hds%map_transformRow_length. destruct ds, rows; done.
Qed.

(** When the check resolves with an error payload the whole batch is
    written. *)
Lemma prefilter_iteration_check_error st w e rest rows ds r :
  faults w = NoFault :: ErrorPayload e :: NoFault :: rest →
  page (Prefilter.after st) BATCH_SIZE (source w) = rows →
  last rows = Some r →
  map_transformRow tz rows = Ok ds →
  Prefilter.iteration tz st w
  = (Ret (Continue
            {| totalProcessed := totalProcessed st + Z.of_nat (length rows);
               totalUpserted := totalUpserted st + Z.of_nat (length ds);
               totalErrors := totalErrors st;
               lastId := Src.id r |}),
     {| source := source w; dest := upsert_rows ds (dest w); faults := rest;
        log := EvUpsert ds :: EvExisting (map Src.id rows)
               :: EvFetch (Prefilter.after st) :: log w |}).
Proof.
  intros Hfs Hpage Hlast Hds.
  assert (rows ≠ []) as Hne by (intros ->; discriminate).
  rewrite (prefilter_iteration_fetched st w rows ds) by (by rewrite ?Hfs).
  rewrite Hfs. simpl tail. unfold bind at 1.
  rewrite (check_existing_error_payload _ _ _ e (NoFault :: rest)) by done.
  rewrite new_records_None.
  pose proof (transformed_nonempty rows ds Hne Hds) as Hds'.
  unfold Prefilter.write_new. destruct ds as [|d ds]; [done|].
  unfold bind at 1. set (batch := d :: ds).
  change (Prefilter.upsertWithRetry batch Prefilter.MAX_RETRIES _)
    with (Ret (Some {| Prefilter.success := true;
                       Prefilter.retry_error := None |}),
          {| source := source w; dest := upsert_rows batch (dest w);
             faults := rest;
             log := EvUpsert batch :: EvExisting (map Src.id rows)
                    :: EvFetch (Prefilter.after st) :: log w |}).
  unfold bind, advance. rewrite Hlast. reflexivity.
Qed.

(** When the check succeeds, a row the destination already holds is left as
    it is, whatever the write does. *)
Lemma prefilter_iteration_frame st w rows ds o w' :
  hd NoFault (faults w) = NoFault →
  hd NoFault (tail (faults w)) = NoFault →
  page (Prefilter.after st) BATCH_SIZE (source w) = rows →
  map_transformRow tz rows = Ok ds →
  Prefilter.iteration tz st w = (o, w') →
  ∀ k d, dest w !! k = Some d → dest w' !! k = Some d.
Proof.
  intros Hf1 Hf2 Hpage Hds Hrun k d Hk.
  destruct (decide (rows = [])) as [->|Hne].
  { rewrite prefilter_iteration_empty in Hrun by done. by injection Hrun as _ <-. }
  rewrite (prefilter_iteration_fetched st w rows ds) in Hrun by done.
  unfold bind at 1 in Hrun. rewrite check_existing_ok in Hrun by done.
  simpl dest in Hrun.
  rewrite (new_records_checked (dest w) (map Src.id rows) ds
             (map_transformRow_ids tz rows ds Hds)) in Hrun.
  set (newRecords := filter (λ d0, dest w !! Dest.id d0 = None) ds) in *.
  set (w2 := called _ _ _) in Hrun.
  destruct newRecords as [|n ns] eqn:Hnew.
  - unfold Prefilter.write_new, bind, advance in Hrun.
    destruct (last rows); injection Hrun as _ <-; done.
  - destruct (last_is_Some rows) as [_ [r Hr]]; [done|].
    destruct (write_new_continues rows (n :: ns) st w2 r)
      as (res & w3 & m & _ & Hw & _ & _ & _ & _ & Hok & Hko); [done | done |].
    rewrite Hw in Hrun. injection Hrun as _ <-.
    destruct (Prefilter.retry_error res) as [e|].
    + destruct (Hko e eq_refl) as (_ & _ & ->). exact Hk.
    + destruct (Hok eq_refl) as (_ & ->).
      rewrite upsert_rows_frame; [exact Hk|].
      intros (x & Hid & Hx)%list_elem_of_fmap.
      assert (x ∈ newRecords) as Hx' by (by rewrite Hnew).
      apply list_elem_of_filter in Hx' as [Hnone _].
      rewrite <- Hid in Hnone. simpl in Hnone. congruence.
Qed.

End PreFilter.

(** C9.  In the sibling script, when the existence check resolves with an
    error payload the handler of the [try] does not run (no pause, no exit):
    [existingRecords] is null, no record is filtered out, the whole batch is
    upserted, and every id of the page then holds a record whose
    [opensearch_sync] is false, also an id the destination held before. *)
Theorem existence_check_error_writes_whole_batch tz st w e rest rows ds r :
  faults w = NoFault :: ErrorPayload e :: NoFault :: rest →
  page (Prefilter.after st) BATCH_SIZE (source w) = rows →
  last rows = Some r →
  map_transformRow tz rows = Ok ds →
  Prefilter.check_existing (map Src.id rows) st
    (called (EvFetch (Prefilter.after st)) (ErrorPayload e :: NoFault :: rest) w)
  = (Ret (inr None),
     called (EvExisting (map Src.id rows)) (NoFault :: rest)
       (called (EvFetch (Prefilter.after st))
          (ErrorPayload e :: NoFault :: rest) w))
  ∧ Prefilter.new_records None ds = ds
  ∧ ∃ st' w',
      Prefilter.iteration tz st w = (Ret (Continue st'), w')
      ∧ log w' = EvUpsert ds :: EvExisting (map Src.id rows)
                 :: EvFetch (Prefilter.after st) :: log w
      ∧ dest w' = upsert_rows ds (dest w)
      ∧ ∀ x, x ∈ rows →
          ∃ d, dest w' !! Src.id x = Some d ∧ Dest.opensearch_sync d = false.
Proof.
  intros Hfs Hpage Hlast Hds.
  split; [by apply (check_existing_error_payload _ _ _ e)|].
  split; [apply new_records_None|].
  eexists _, _. split.
  { by apply (prefilter_iteration_check_error tz st w e rest rows ds r). }
  simpl. split; [done|]. split; [done|].
  intros x Hx.
  destruct (upsert_rows_written ds (dest w) (Src.id x)) as (d & Hd & Hin & _).
  { rewrite (map_transformRow_ids tz rows ds Hds). by apply list_elem_of_fmap_2. }
  exists d. split; [done|].
  by apply (proj1 (Forall_forall _ _) (map_transformRow_sync tz rows ds Hds)).
Qed.

Lemma existence_check_error_writes_whole_batch_witness :
  ∃ st' w',
    Prefilter.iteration 0 initial resynced_world = (Ret (Continue st'), w')
    ∧ dest w' = upsert_rows [synced_row 2 false] (dest resynced_world).
Proof.
  destruct (existence_check_error_writes_whole_batch 0 initial resynced_world
              {| message := "URI too long" |} [] [plain_row 2]
              [synced_row 2 false] (plain_row 2))
    as (_ & _ & st' & w' & Hrun & _ & Hdest & _);
    [reflexivity | reflexivity | reflexivity | reflexivity |].
  exists st', w'. split; assumption.
Defined.

(** C6 (the code departs from it).  The destination holds id 2 with
    [opensearch_sync] true; the existence check of the batch resolves with
    an error payload; the turn writes id 2 again and the flag is false. *)
Theorem prefilter_overwrites_existing_row_on_check_error :
  dest resynced_world !! 2 = Some (synced_row 2 true)
  ∧ ∃ st' w',
      Prefilter.iteration 0 initial resynced_world = (Ret (Continue st'), w')
      ∧ upserts (log w') = [[synced_row 2 false]]
      ∧ dest w' !! 2 = Some (synced_row 2 false).
Proof.
  split; [reflexivity|].
  eexists _, _. split.
  { apply (prefilter_iteration_check_error 0 initial resynced_world
             {| message := "URI too long" |} [] [plain_row 2]
             [synced_row 2 false] (plain_row 2)); reflexivity. }
  split; reflexivity.
Qed.

(** ** A run without datastore failures *)

Section CleanRun.

Variable tz : Z.

#[local] Arguments BATCH_SIZE : simpl never.

Lemma map_transformRow_app rows1 rows2 ds1 ds2 :
  map_transformRow tz rows1 = Ok ds1 →
  map_transformRow tz rows2 = Ok ds2 →
  map_transformRow tz (rows1 ++ rows2) = Ok (ds1 ++ ds2).
Proof.
  revert ds1. induction rows1 as [|r rows1 IH]; intros ds1; simpl.
  - intros [= <-]. done.
  - destruct (transformRow tz r) as [d|]; [|discriminate].
    destruct (map_transformRow tz rows1) as [ds|]; [|discriminate].
    intros [= <-] H2. by rewrite (IH ds eq_refl H2).
Qed.

(** The rows after the last row of a page are the rows after the page. *)
Lemma pending_next cursor n rows r :
  NoDup (map Src.id rows) →
  last (take n (pending cursor rows)) = Some r →
  pending (Src.id r) rows = drop n (pending cursor rows).
Proof.
  intros Hnd Hlast.
  pose proof (pending_sorted cursor rows Hnd) as Hs.
  assert (r ∈ pending cursor rows) as Hr.
  { eapply subseteq_take, last_Some_elem_of, Hlast. }
  apply elem_of_pending in Hr as [Hc _].
  assert (pending (Src.id r) rows
          = filter (λ x, Src.id r < Src.id x) (pending cursor rows)) as ->.
  { unfold pending. rewrite list_filter_filter. apply list_filter_iff.
    intros x. lia. }
  rewrite <- (take_drop n (pending cursor rows)) in Hs |- * at 1.
  rewrite filter_app.
  apply last_Some in Hlast as [l' Hl']. rewrite Hl' in Hs |- *.
  rewrite filter_Forall_not, filter_Forall; [done | |].
  - apply Forall_forall. intros x Hx.
    apply (StronglySorted_app_1_elem_of id_lt _ _ r x Hs); [|done].
    apply elem_of_app. right. by left.
  - apply Forall_forall. intros x Hx.
    apply StronglySorted_app_1_l in Hs.
    apply elem_of_app in Hx as [Hx|Hx%list_elem_of_singleton].
    + pose proof (StronglySorted_app_1_elem_of id_lt _ _ x r Hs Hx) as Hlt.
      unfold id_lt in Hlt. specialize (Hlt ltac:(by left)). lia.
    + subst x. lia.
Qed.

Lemma pending_length cursor rows :
  (length (pending cursor rows) ≤ length rows)%nat.
Proof.
  unfold pending. rewrite <- (Permutation_length (order_by_id_perm rows)).
  apply length_filter.
Qed.

Lemma pending_well_typed cursor rows :
  Forall well_typed rows → Forall well_typed (pending cursor rows).
Proof.
  rewrite !Forall_forall. intros H r [_ Hr]%elem_of_pending. by apply H.
Qed.

(** *** migrate_records.js *)

Lemma select_source_clean after n w :
  faults w = [] →
  select_source after n w
  = (Ret {| data := Some (page after n (source w)); error := None |},
     called (EvFetch after) [] w).
Proof. intros Hf. unfold select_source. by rewrite call_clean. Qed.

Lemma upsert_clean ds w :
  faults w = [] →
  upsert ds w
  = (Ret {| data := Some tt; error := None |},
     {| source := source w; dest := upsert_rows ds (dest w); faults := [];
        log := EvUpsert ds :: log w |}).
Proof. intros Hf. unfold upsert. by rewrite call_clean. Qed.

Lemma lift_Ok {A} (r : result A) a w : r = Ok a → lift r w = (Ret a, w).
Proof. by intros ->. Qed.

Lemma advance_Some rows st r w :
  last rows = Some r →
  advance rows st w
  = (Ret {| totalProcessed := totalProcessed st + Z.of_nat (length rows);
            totalUpserted := totalUpserted st;
            totalErrors := totalErrors st;
            lastId := Src.id r |}, w).
Proof. intros H. unfold advance. by rewrite H. Qed.

Lemma upsert_iteration_clean_empty st w :
  faults w = [] →
  pending (lastId st) (source w) = [] →
  Upsert.iteration tz st w
  = (Ret (Break st), called (EvFetch (Some (lastId st))) [] w).
Proof.
  intros Hf Hp. unfold Upsert.iteration, Upsert.after.
  rewrite (bind_Ret _ _ _ _ _ (select_source_clean _ _ w Hf)).
  cbn [error data]. by rewrite page_Some, Hp, take_nil.
Qed.

Lemma upsert_iteration_clean st w rows ds r :
  faults w = [] →
  take BATCH_SIZE (pending (lastId st) (source w)) = rows →
  last rows = Some r →
  map_transformRow tz rows = Ok ds →
  Upsert.iteration tz st w
  = (Ret (Continue
            {| totalProcessed := totalProcessed st + Z.of_nat (length rows);
               totalUpserted := totalUpserted st + Z.of_nat (length ds);
               totalErrors := totalErrors st;
               lastId := Src.id r |}),
     {| source := source w; dest := upsert_rows ds (dest w); faults := [];
        log := EvUpsert ds :: EvFetch (Some (lastId st)) :: log w |}).
Proof.
  intros Hf Hp Hlast Hds. unfold Upsert.iteration, Upsert.after.
  rewrite (bind_Ret _ _ _ _ _ (select_source_clean _ _ w Hf)).
  cbn [error data]. rewrite page_Some, Hp.
  destruct rows as [|r0 rows]; [discriminate|].
  rewrite (bind_Ret _ _ _ _ _ (lift_Ok _ _ _ Hds)).
  rewrite (bind_Ret _ _ _ _ _
             (upsert_clean ds (called (EvFetch (Some (lastId st))) [] w)
                eq_refl)).
  cbn [error].
  by rewrite (bind_Ret _ _ _ _ _ (advance_Some _ _ r _ Hlast)).
Qed.

(** The loop of the upsert script: it ends, and it has written the rows
    after the cursor, transformed. *)
Lemma upsert_loop_clean fuel st w :
  faults w = [] →
  NoDup (map Src.id (source w)) →
  Forall well_typed (source w) →
  (length (pending (lastId st) (source w)) < fuel)%nat →
  ∃ st' w' ds,
    loop (Upsert.iteration tz) fuel st w = (Ret st', w')
    ∧ map_transformRow tz (pending (lastId st) (source w)) = Ok ds
    ∧ dest w' = upsert_rows ds (dest w)
    ∧ source w' = source w
    ∧ faults w' = []
    ∧ totalErrors st' = totalErrors st.
Proof.
  revert st w. induction fuel as [|fuel IH]; intros st w Hf Hnd Hwt Hfuel; [lia|].
  simpl loop. unfold bind.
  destruct (pending (lastId st) (source w)) as [|p ps] eqn:Hp.
  - rewrite upsert_iteration_clean_empty by done.
    eexists _, _, []. repeat split; done.
  - set (rows := take BATCH_SIZE (p :: ps)).
    destruct (last_is_Some rows) as [_ [r Hr]]; [done|].
    destruct (map_transformRow_returns tz rows) as [ds1 Hds1].
    { apply Forall_forall. intros x Hx%subseteq_take.
      rewrite <- Hp in Hx. apply elem_of_pending in Hx as [_ Hx].
      by apply (proj1 (Forall_forall _ _) Hwt). }
    rewrite (upsert_iteration_clean st w rows ds1 r) by (by rewrite ?Hp).
    set (st1 := {| lastId := Src.id r |}).
    set (w1 := {| dest := upsert_rows ds1 (dest w) |}).
    assert (pending (lastId st1) (source w1) = drop BATCH_SIZE (p :: ps)) as Hnext.
    { change (pending (Src.id r) (source w) = drop BATCH_SIZE (p :: ps)).
      rewrite <- Hp. apply pending_next; [done|]. by rewrite Hp. }
    destruct (IH st1 w1) as (st' & w' & ds2 & Hrun & Hds2 & Hd & Hs & Hf' & He);
      try done.
    { rewrite Hnext, length_drop. cbn [length] in *. unfold BATCH_SIZE. lia. }
    exists st', w', (ds1 ++ ds2). split; [done|].
    split.
    { rewrite <- (take_drop BATCH_SIZE (p :: ps)).
      apply map_transformRow_app; [done|]. by rewrite <- Hnext. }
    rewrite Hd, upsert_rows_app. repeat split; done.
Qed.

(** The frame of [main] around a loop that ends without an error
    counted. *)
Lemma run_clean (iteration : counters → M flow) fuel w st' w' :
  faults w = [] →
  loop iteration fuel initial
    (called EvCountDest [] (called EvCountSource [] w)) = (Ret st', w') →
  faults w' = [] →
  totalErrors st' = 0 →
  run iteration fuel w = (Exit 0, called EvCountDest [] w').
Proof.
  intros Hf Hloop Hf' Herr.
  unfold run, try_catch, main, count_source, count_dest.
  unfold bind at 1. rewrite call_clean by done. simpl.
  unfold bind at 1. rewrite call_clean by done. simpl.
  unfold bind at 1. rewrite Hloop.
  unfold bind at 1. rewrite call_clean by done. simpl.
  rewrite Herr. reflexivity.
Qed.

(** Writing a batch twice is writing it once. *)
Lemma upsert_rows_lookup_indep ds (t1 t2 : gmap Z Dest.row) k :
  k ∈ map Dest.id ds → upsert_rows ds t1 !! k = upsert_rows ds t2 !! k.
Proof.
  revert t1 t2. induction ds as [|d ds IH]; intros t1 t2 Hk; [set_solver|].
  rewrite !upsert_rows_cons.
  destruct (decide (k ∈ map Dest.id ds)) as [Hin|Hout]; [by apply IH|].
  rewrite !upsert_rows_frame by done.
  assert (k = Dest.id d) as -> by set_solver.
  by rewrite !lookup_insert_eq.
Qed.

Lemma upsert_rows_idem ds (table : gmap Z Dest.row) :
  upsert_rows ds (upsert_rows ds table) = upsert_rows ds table.
Proof.
  apply map_eq. intros k.
  destruct (decide (k ∈ map Dest.id ds)) as [Hin|Hout].
  - by apply upsert_rows_lookup_indep.
  - by rewrite !upsert_rows_frame.
Qed.

Lemma upsert_rows_keeps_ids ds (table : gmap Z Dest.row) k :
  is_Some (table !! k) → is_Some (upsert_rows ds table !! k).
Proof.
  intros Hk. destruct (decide (k ∈ map Dest.id ds)) as [Hin|Hout].
  - destruct (upsert_rows_written ds table k Hin) as (d & -> & _). eauto.
  - by rewrite upsert_rows_frame.
Qed.

(** One clean run of the upsert script. *)
Lemma upsert_run_clean fuel w :
  faults w = [] →
  NoDup (map Src.id (source w)) →
  Forall well_typed (source w) →
  (length (source w) < fuel)%nat →
  ∃ w' ds,
    Upsert.run tz fuel w = (Exit 0, w')
    ∧ map_transformRow tz (pending 0 (source w)) = Ok ds
    ∧ dest w' = upsert_rows ds (dest w)
    ∧ source w' = source w
    ∧ faults w' = [].
Proof.
  intros Hf Hnd Hwt Hfuel.
  destruct (upsert_loop_clean fuel initial
              (called EvCountDest [] (called EvCountSource [] w)))
    as (st' & w' & ds & Hloop & Hds & Hd & Hs & Hf' & He); try done.
  { simpl. pose proof (pending_length 0 (source w)). lia. }
  exists (called EvCountDest [] w'), ds. split.
  { unfold Upsert.run. by apply (run_clean _ fuel w st' w'). }
  simpl in *. repeat split; done.
Qed.

(** *** The sibling script *)

Lemma prefilter_page st n rows :
  0 ≤ lastId st → Forall (λ r, 0 < Src.id r) rows →
  page (Prefilter.after st) n rows = take n (pending (lastId st) rows).
Proof.
  intros Hc Hpos. unfold Prefilter.after.
  destruct (0 <? lastId st) eqn:E; [done|]. apply Z.ltb_ge in E.
  assert (lastId st = 0) as -> by lia.
  unfold page, pending. f_equal. symmetry. apply filter_Forall.
  apply Forall_forall. intros r Hr. rewrite elem_of_order_by_id in Hr.
  by apply (proj1 (Forall_forall _ _) Hpos).
Qed.

Lemma write_new_clean rows newRecords st w r :
  faults w = [] → last rows = Some r →
  ∃ st' w',
    Prefilter.write_new rows newRecords st w = (Ret (Continue st'), w')
    ∧ lastId st' = Src.id r
    ∧ totalErrors st' = totalErrors st
    ∧ faults w' = []
    ∧ source w' = source w
    ∧ dest w' = upsert_rows newRecords (dest w)
    ∧ (newRecords = [] → log w' = log w).
Proof.
  intros Hf Hlast. destruct (decide (newRecords = [])) as [->|Hne].
  - unfold Prefilter.write_new, bind, advance. rewrite Hlast.
    eexists _, _. split; [reflexivity|]. repeat split; done.
  - destruct (write_new_continues rows newRecords st w r Hne Hlast)
      as (res & w' & n & _ & Hw & _ & _ & Hfs & Hsrc & Hok & Hko).
    rewrite Hf in Hfs, Hok, Hko. rewrite drop_nil in Hfs.
    destruct (Prefilter.retry_error res) as [e|] eqn:Hres.
    { by destruct (Hko e eq_refl) as [? _]. }
    destruct (Hok eq_refl) as [_ Hd].
    eexists _, w'. split; [exact Hw|]. repeat split; done.
Qed.

Lemma prefilter_iteration_clean st w rows ds r :
  faults w = [] →
  0 ≤ lastId st → Forall (λ x, 0 < Src.id x) (source w) →
  take BATCH_SIZE (pending (lastId st) (source w)) = rows →
  last rows = Some r →
  map_transformRow tz rows = Ok ds →
  ∃ st' w',
    Prefilter.iteration tz st w = (Ret (Continue st'), w')
    ∧ lastId st' = Src.id r
    ∧ totalErrors st' = totalErrors st
    ∧ faults w' = []
    ∧ source w' = source w
    ∧ dest w'
      = upsert_rows (filter (λ d, dest w !! Dest.id d = None) ds) (dest w)
    ∧ (filter (λ d, dest w !! Dest.id d = None) ds = [] →
       upserts (log w') = upserts (log w)).
Proof.
  intros Hf Hc Hpos Hp Hlast Hds.
  assert (rows ≠ []) as Hne by (intros ->; discriminate).
  rewrite (prefilter_iteration_fetched tz st w rows ds);
    [| by rewrite Hf | by rewrite prefilter_page | done | done].
  rewrite Hf. simpl tail. unfold bind at 1.
  rewrite check_existing_ok by done. simpl dest. simpl tail.
  rewrite (new_records_checked (dest w) (map Src.id rows) ds
             (map_transformRow_ids tz rows ds Hds)).
  set (newRecords := filter (λ d, dest w !! Dest.id d = None) ds).
  destruct (write_new_clean rows newRecords st
              (called (EvExisting (map Src.id rows)) []
                 (called (EvFetch (Prefilter.after st)) [] w)) r)
    as (st' & w' & Hw & Hid & He & Hf' & Hs & Hd & Hl); [done | done |].
  exists st', w'. split; [exact Hw|]. repeat split; try done.
  intros Hnil. by rewrite (Hl Hnil).
Qed.

Lemma prefilter_iteration_clean_empty st w :
  faults w = [] →
  0 ≤ lastId st → Forall (λ x, 0 < Src.id x) (source w) →
  pending (lastId st) (source w) = [] →
  Prefilter.iteration tz st w
  = (Ret (Break st), called (EvFetch (Prefilter.after st)) [] w).
Proof.
  intros Hf Hc Hpos Hp.
  rewrite prefilter_iteration_empty; [by rewrite Hf | by rewrite Hf |].
  rewrite prefilter_page by done. by rewrite Hp.
Qed.

(** The loop of the sibling script: it ends; the rows the destination held
    are as they were; every id after the cursor is in the destination; and
    when they all were there before, nothing is written. *)
Lemma prefilter_loop_clean fuel st w :
  faults w = [] →
  NoDup (map Src.id (source w)) →
  Forall well_typed (source w) →
  Forall (λ x, 0 < Src.id x) (source w) →
  0 ≤ lastId st →
  (length (pending (lastId st) (source w)) < fuel)%nat →
  ∃ st' w',
    loop (Prefilter.iteration tz) fuel st w = (Ret st', w')
    ∧ source w' = source w
    ∧ faults w' = []
    ∧ totalErrors st' = totalErrors st
    ∧ (∀ k d, dest w !! k = Some d → dest w' !! k = Some d)
    ∧ (∀ x, x ∈ pending (lastId st) (source w) →
         is_Some (dest w' !! Src.id x))
    ∧ ((∀ x, x ∈ pending (lastId st) (source w) →
          is_Some (dest w !! Src.id x)) →
       dest w' = dest w ∧ upserts (log w') = upserts (log w)).
Proof.
  revert st w.
  induction fuel as [|fuel IH]; intros st w Hf Hnd Hwt Hpos Hc Hfuel; [lia|].
  simpl loop. unfold bind.
  destruct (pending (lastId st) (source w)) as [|p ps] eqn:Hp.
  - rewrite prefilter_iteration_clean_empty by done.
    eexists _, _. split; [reflexivity|]. simpl.
    repeat split; try done. intros x Hx. by apply not_elem_of_nil in Hx.
  - set (rows := take BATCH_SIZE (p :: ps)).
    destruct (last_is_Some rows) as [_ [r Hr]]; [done|].
    assert (rows ⊆ pending (lastId st) (source w)) as Hsub.
    { rewrite Hp. apply subseteq_take. }
    destruct (map_transformRow_returns tz rows) as [ds Hds].
    { apply Forall_forall. intros x Hx%Hsub.
      apply elem_of_pending in Hx as [_ Hx].
      by apply (proj1 (Forall_forall _ _) Hwt). }
    destruct (prefilter_iteration_clean st w rows ds r)
      as (st1 & w1 & Hit & Hid & He1 & Hf1 & Hs1 & Hd1 & Hl1);
      try done.
    { by rewrite Hp. }
    rewrite Hit.
    set (newRecords := filter (λ d, dest w !! Dest.id d = None) ds) in *.
    assert (r ∈ pending (lastId st) (source w)) as Hrp.
    { apply Hsub. by apply last_Some_elem_of. }
    assert (pending (lastId st1) (source w1) = drop BATCH_SIZE (p :: ps))
      as Hnext.
    { rewrite Hid, Hs1, <- Hp. apply pending_next; [done|]. by rewrite Hp. }
    destruct (IH st1 w1)
      as (st' & w' & Hrun & Hs' & Hf' & He' & Hframe & Hcover & Hnoop);
      try (by rewrite ?Hs1).
    { rewrite Hid. apply elem_of_pending in Hrp as [? _]. lia. }
    { rewrite Hnext. simpl in *. rewrite length_drop. lia. }
    assert (∀ k d, dest w !! k = Some d → dest w1 !! k = Some d) as Hframe1.
    { intros k d Hk. rewrite Hd1, upsert_rows_frame; [done|].
      intros (x & Hidx & Hx)%list_elem_of_fmap.
      apply list_elem_of_filter in Hx as [Hnone _].
      rewrite <- Hidx in Hnone. congruence. }
    exists st', w'. split; [exact Hrun|].
    split; [congruence|]. split; [done|]. split; [congruence|].
    split; [|split].
    + intros k d Hk. by apply Hframe, Hframe1.
    + intros x Hx. rewrite <- (take_drop BATCH_SIZE (p :: ps)) in Hx.
      apply elem_of_app in Hx as [Hx|Hx].
      * assert (is_Some (dest w1 !! Src.id x)) as [d Hd].
        { destruct (dest w !! Src.id x) as [d|] eqn:Hold.
          { exists d. by apply Hframe1. }
          rewrite Hd1.
          assert (Src.id x ∈ map Dest.id newRecords) as Hin.
          { assert (Src.id x ∈ map Dest.id ds) as Hin.
            { rewrite (map_transformRow_ids tz rows ds Hds).
              by apply list_elem_of_fmap_2. }
            apply list_elem_of_fmap in Hin as (d & Hidd & Hdin).
            apply list_elem_of_fmap. exists d. split; [done|].
            apply list_elem_of_filter. split; [|done]. congruence. }
          destruct (upsert_rows_written newRecords (dest w) _ Hin)
            as (d & Hd & _).
          eauto. }
        exists d. by apply Hframe.
      * apply Hcover. by rewrite Hnext.
    + intros Hall.
      assert (newRecords = []) as Hnil.
      { apply filter_Forall_not, Forall_forall. intros d Hd.
        assert (Dest.id d ∈ map Src.id rows) as Hin.
        { rewrite <- (map_transformRow_ids tz rows ds Hds).
          by apply list_elem_of_fmap_2. }
        apply list_elem_of_fmap in Hin as (x & -> & Hx).
        destruct (Hall x) as [d' Hd']; [by apply Hsub in Hx; rewrite Hp in Hx|].
        congruence. }
      assert (dest w1 = dest w) as Hsame by (by rewrite Hd1, Hnil).
      destruct Hnoop as [Hd' Hl'].
      { intros x Hx. rewrite Hsame. apply Hall.
        rewrite Hnext in Hx. rewrite <- (take_drop BATCH_SIZE (p :: ps)).
        apply elem_of_app. by right. }
      split; [congruence|]. rewrite Hl'. by apply Hl1.
Qed.

(** One clean run of the sibling script. *)
Lemma prefilter_run_clean fuel w :
  faults w = [] →
  NoDup (map Src.id (source w)) →
  Forall well_typed (source w) →
  Forall (λ x, 0 < Src.id x) (source w) →
  (length (source w) < fuel)%nat →
  ∃ w',
    Prefilter.run tz fuel w = (Exit 0, w')
    ∧ source w' = source w
    ∧ faults w' = []
    ∧ (∀ k d, dest w !! k = Some d → dest w' !! k = Some d)
    ∧ (∀ x, x ∈ source w → is_Some (dest w' !! Src.id x))
    ∧ ((∀ x, x ∈ source w → is_Some (dest w !! Src.id x)) →
       dest w' = dest w ∧ upserts (log w') = upserts (log w)).
Proof.
  intros Hf Hnd Hwt Hpos Hfuel.
  destruct (prefilter_loop_clean fuel initial
              (called EvCountDest [] (called EvCountSource [] w)))
    as (st' & w' & Hloop & Hs & Hf' & He & Hframe & Hcover & Hnoop);
    try done.
  { simpl. pose proof (pending_length 0 (source w)). lia. }
  exists (called EvCountDest [] w'). split.
  { unfold Prefilter.run. by apply (run_clean _ fuel w st' w'). }
  simpl in *. repeat split; try done.
  - intros x Hx. apply Hcover, elem_of_pending. split; [|done].
    by apply (proj1 (Forall_forall _ _) Hpos).
  - apply Hnoop. intros x [_ Hx]%elem_of_pending. by apply H.
  - apply Hnoop. intros x [_ Hx]%elem_of_pending. by apply H.
Qed.

End CleanRun.

(** C5.  Over a source with a primary key of positive ids and typed rows,
    and a datastore that does not fail: the upsert script run twice leaves
    the destination as one run leaves it, every source id holding a record
    whose [opensearch_sync] is false and every other row being as it was
    before the first run; the sibling script run a second time writes
    nothing and leaves the destination as its first run left it, with every
    source id in it.  Each of the four runs ends with exit status 0. *)
Theorem migration_idempotent tz fuel w :
  faults w = [] →
  NoDup (map Src.id (source w)) →
  Forall well_typed (source w) →
  Forall (λ r, 0 < Src.id r) (source w) →
  (length (source w) < fuel)%nat →
  (∃ w1 w2,
     Upsert.run tz fuel w = (Exit 0, w1)
     ∧ Upsert.run tz fuel w1 = (Exit 0, w2)
     ∧ source w1 = source w
     ∧ dest w2 = dest w1
     ∧ (∀ r, r ∈ source w →
          ∃ d, dest w1 !! Src.id r = Some d ∧ Dest.opensearch_sync d = false)
     ∧ (∀ k d, dest w1 !! k = Some d →
          Dest.opensearch_sync d = false ∨ dest w !! k = Some d))
  ∧ (∃ w1 w2,
       Prefilter.run tz fuel w = (Exit 0, w1)
       ∧ Prefilter.run tz fuel w1 = (Exit 0, w2)
       ∧ source w1 = source w
       ∧ dest w2 = dest w1
       ∧ upserts (log w2) = upserts (log w1)
       ∧ (∀ r, r ∈ source w → is_Some (dest w1 !! Src.id r))).
Proof.
  intros Hf Hnd Hwt Hpos Hfuel. split.
  - destruct (upsert_run_clean tz fuel w) as (w1 & ds & Hrun1 & Hds & Hd1 & Hs1 & Hf1);
      try done.
    destruct (upsert_run_clean tz fuel w1) as (w2 & ds' & Hrun2 & Hds' & Hd2 & _);
      try (by rewrite ?Hs1).
    rewrite Hs1, Hds in Hds'. injection Hds' as <-.
    exists w1, w2. repeat split; try done.
    + by rewrite Hd2, Hd1, upsert_rows_idem.
    + intros r Hr.
      destruct (upsert_rows_written ds (dest w) (Src.id r)) as (d & Hd & Hin & _).
      { rewrite (map_transformRow_ids tz _ ds Hds). apply list_elem_of_fmap_2.
        apply elem_of_pending. split; [|done].
        by apply (proj1 (Forall_forall _ _) Hpos). }
      exists d. rewrite Hd1. split; [done|].
      by apply (proj1 (Forall_forall _ _) (map_transformRow_sync tz _ ds Hds)).
    + intros k d Hk. rewrite Hd1 in Hk.
      apply upsert_rows_lookup in Hk as [Hin|Hold]; [left | by right].
      by apply (proj1 (Forall_forall _ _) (map_transformRow_sync tz _ ds Hds)).
  - destruct (prefilter_run_clean tz fuel w)
      as (w1 & Hrun1 & Hs1 & Hf1 & _ & Hcover & _); try done.
    destruct (prefilter_run_clean tz fuel w1)
      as (w2 & Hrun2 & _ & _ & _ & _ & Hnoop); try (by rewrite ?Hs1).
    destruct Hnoop as [Hd2 Hl2].
    { intros x Hx. rewrite Hs1 in Hx. by apply Hcover. }
    exists w1, w2. repeat split; done.
Qed.

Lemma migration_idempotent_witness :
  (∃ w1 w2,
     Upsert.run 0 4 scenario_world = (Exit 0, w1)
     ∧ Upsert.run 0 4 w1 = (Exit 0, w2)
     ∧ dest w2 = dest w1)
  ∧ (∃ w1 w2,
       Prefilter.run 0 4 scenario_world = (Exit 0, w1)
       ∧ Prefilter.run 0 4 w1 = (Exit 0, w2)
       ∧ upserts (log w2) = upserts (log w1)).
Proof.
  destruct (migration_idempotent 0 4 scenario_world) as [Hu Hp].
  - reflexivity.
  - apply (bool_decide_unpack _). vm_compute. reflexivity.
  - repeat (apply Forall_cons_2; [right; eexists; reflexivity|]).
    apply Forall_nil_2.
  - repeat (apply Forall_cons_2; [reflexivity|]). apply Forall_nil_2.
  - simpl. lia.
  - split.
    + destruct Hu as (w1 & w2 & H1 & H2 & _ & H3 & _). exists w1, w2. auto.
    + destruct Hp as (w1 & w2 & H1 & H2 & _ & _ & H3 & _). exists w1, w2. auto.
Defined.

(** The end-to-end scenario of the specification, in UTC: three rows in the
    destination, row 2 with its date and duration, the flag false. *)
Lemma scenario_upsert_run :
  ∃ w1,
    Upsert.run 0 4 scenario_world = (Exit 0, w1)
    ∧ size (dest w1) = 3%nat
    ∧ (Dest.ad_date <$> dest w1 !! 2) = Some (Some "2024-02-01"%string)
    ∧ (Dest.active_time_hr <$> dest w1 !! 2) = Some (Some 10)
    ∧ (Dest.opensearch_sync <$> dest w1 !! 2) = Some false.
Proof. eexists. split; [vm_compute; reflexivity|]. repeat split. Qed.

(** * Further properties of the two scripts *)

(** ** The outcomes of a call *)

Section CallCases.

Lemma select_source_cases after n w :
  let w1 := called (EvFetch after) (tail (faults w)) w in
  select_source after n w
  = (Ret {| data := Some (page after n (source w)); error := None |}, w1)
  ∨ (∃ e, select_source after n w
          = (Ret {| data := None; error := Some e |}, w1))
  ∨ (∃ e, select_source after n w = (Raise e, w1)).
Proof.
  unfold select_source. destruct (faults w) as [|[|e|e] rest] eqn:E; simpl.
  - left. by rewrite call_clean.
  - left. by rewrite (call_faulty _ _ w _ rest E).
  - right. left. exists e. by rewrite (call_faulty _ _ w _ rest E).
  - right. right. exists e. by rewrite (call_faulty _ _ w _ rest E).
Qed.

Lemma upsert_cases ds w :
  let rest := tail (faults w) in
  upsert ds w
  = (Ret {| data := Some tt; error := None |},
     {| source := source w; dest := upsert_rows ds (dest w); faults := rest;
        log := EvUpsert ds :: log w |})
  ∨ (∃ e, upsert ds w
          = (Ret {| data := None; error := Some e |},
             called (EvUpsert ds) rest w))
  ∨ (∃ e, upsert ds w = (Raise e, called (EvUpsert ds) rest w)).
Proof.
  unfold upsert. destruct (faults w) as [|[|e|e] rest] eqn:E; simpl.
  - left. by rewrite call_clean.
  - left. by rewrite (call_faulty _ _ w _ rest E).
  - right. left. exists e. by rewrite (call_faulty _ _ w _ rest E).
  - right. right. exists e. by rewrite (call_faulty _ _ w _ rest E).
Qed.

Lemma count_source_cases w :
  let w1 := called EvCountSource (tail (faults w)) w in
  count_source w
  = (Ret {| data := Some (length (source w)); error := None |}, w1)
  ∨ (∃ e, count_source w = (Ret {| data := None; error := Some e |}, w1))
  ∨ (∃ e, count_source w = (Raise e, w1)).
Proof.
  unfold count_source. destruct (faults w) as [|[|e|e] rest] eqn:E; simpl.
  - left. by rewrite call_clean.
  - left. by rewrite (call_faulty _ _ w _ rest E).
  - right. left. exists e. by rewrite (call_faulty _ _ w _ rest E).
  - right. right. exists e. by rewrite (call_faulty _ _ w _ rest E).
Qed.

Lemma bind_OutOfFuel {A B} (m : M A) (k : A → M B) w w' :
  m w = (OutOfFuel, w') → bind m k w = (OutOfFuel, w').
Proof. intros H. unfold bind. by rewrite H. Qed.

Lemma lift_Throws {A} (r : result A) e w :
  r = Throws e → lift r w = (Raise e, w).
Proof. by intros ->. Qed.

End CallCases.

(** ** The cursor of the upsert script *)

Section Cursor.

Variable tz : Z.

Lemma length_filter_lt {A} (P : A → Prop) `{!∀ x, Decision (P x)}
    (l : list A) x :
  x ∈ l → ¬ P x → (length (filter P l) < length l)%nat.
Proof.
  intros Hx Hn. induction l as [|y l IH]; [by apply not_elem_of_nil in Hx|].
  apply elem_of_cons in Hx as [<- | Hx].
  - rewrite filter_cons_False by done. simpl.
    pose proof (length_filter P l). lia.
  - specialize (IH Hx). rewrite filter_cons. destruct (decide (P y)); simpl; lia.
Qed.

Lemma pending_filter c c' rows :
  c ≤ c' →
  pending c' rows = filter (λ x, c' < Src.id x) (pending c rows).
Proof.
  intros Hc. unfold pending. rewrite list_filter_filter.
  apply list_filter_iff. intros x. lia.
Qed.

Lemma pending_shrinks c c' rows :
  c ≤ c' → (length (pending c' rows) ≤ length (pending c rows))%nat.
Proof. intros Hc. rewrite (pending_filter c c') by done. apply length_filter. Qed.

Lemma pending_shrinks_strictly c rows r :
  r ∈ pending c rows →
  (length (pending (Src.id r) rows) < length (pending c rows))%nat.
Proof.
  intros Hr. pose proof (proj1 (elem_of_pending c rows r) Hr) as [Hc _].
  rewrite (pending_filter c (Src.id r)) by lia.
  apply (length_filter_lt _ _ r); [done | lia].
Qed.

Lemma pending_after_page c n rows r :
  last (take n (pending c rows)) = Some r →
  (length (pending (Src.id r) rows) + length (take n (pending c rows))
   ≤ length (pending c rows))%nat.
Proof.
  intros Hlast.
  assert (r ∈ pending c rows) as Hr.
  { eapply subseteq_take, last_Some_elem_of, Hlast. }
  apply elem_of_pending in Hr as [Hc _].
  rewrite (pending_filter c (Src.id r)) by lia.
  assert (StronglySorted id_le (pending c rows)) as Hs.
  { apply StronglySorted_filter, order_by_id_sorted. }
  rewrite <- (take_drop n (pending c rows)) in Hs |- * at 1.
  rewrite filter_app, filter_Forall_not.
  - rewrite <- (take_drop n (pending c rows)) at 3.
    rewrite (length_app (take _ _)). simpl.
    pose proof (length_filter (λ x, Src.id r < Src.id x)
                  (drop n (pending c rows))). lia.
  - apply StronglySorted_app_1_l in Hs.
    apply last_Some in Hlast as [l' Hl']. rewrite Hl' in Hs |- *.
    apply Forall_forall. intros x Hx.
    apply elem_of_app in Hx as [Hx|Hx%list_elem_of_singleton].
    + pose proof (StronglySorted_app_1_elem_of id_le _ _ x r Hs Hx
                    ltac:(by left)) as Hle.
      unfold id_le in Hle. lia.
    + subst x. lia.
Qed.

(** One turn of the upsert script, whatever the datastore does: the source
    is not touched, one fetch is logged, at the cursor; and when the turn
    ends with [continue] the cursor has moved up, there are fewer turns
    left, and no more rows are counted as upserted than as processed. *)
Lemma upsert_iteration_progress st w o w' :
  Upsert.iteration tz st w = (o, w') →
  source w' = source w
  ∧ fetches (log w') = Some (lastId st) :: fetches (log w)
  ∧ (∀ c, o ≠ Exit c) ∧ o ≠ OutOfFuel
  ∧ (∀ st', o = Ret (Break st') →
       totalProcessed st' = totalProcessed st
       ∧ totalUpserted st' = totalUpserted st
       ∧ lastId st ≤ lastId st')
  ∧ ∀ st', o = Ret (Continue st') →
      lastId st < lastId st'
      ∧ totalErrors st ≤ totalErrors st'
      ∧ (turns_left st' w' < turns_left st w)%nat
      ∧ 0 ≤ totalUpserted st' - totalUpserted st
        ≤ totalProcessed st' - totalProcessed st
      ∧ Z.of_nat (length (pending (lastId st') (source w)))
        + (totalProcessed st' - totalProcessed st)
        ≤ Z.of_nat (length (pending (lastId st) (source w))).
Proof.
  unfold Upsert.iteration, Upsert.after.
  destruct (select_source_cases (Some (lastId st)) BATCH_SIZE w)
    as [H|[[e H]|[e H]]].
  - rewrite (bind_Ret _ _ _ _ _ H). cbn [error data]. rewrite page_Some.
    set (w1 := called _ _ w).
    destruct (take BATCH_SIZE (pending (lastId st) (source w)))
      as [|r0 rows] eqn:Hp.
    { intros [= <- <-]. do 4 (split; [done|]).
      split; [|done]. intros st' [= <-]. repeat split; lia. }
    cbv iota.
    set (pg := r0 :: rows) in *.
    destruct (map_transformRow tz pg) as [ds|e] eqn:Hds.
    2:{ rewrite (bind_Raise _ _ _ _ _ (lift_Throws (Throws e) e w1 eq_refl)).
        intros [= <- <-]. repeat split; done. }
    rewrite (bind_Ret _ _ _ _ _ (lift_Ok (Ok ds) ds w1 eq_refl)).
    pose proof (map_transformRow_length tz pg ds Hds) as Hlen.
    unfold pg in Hlen. cbn [length] in Hlen.
    destruct (last_is_Some pg) as [_ [r Hr]]; [done|].
    assert (r ∈ pending (lastId st) (source w)) as Hrp.
    { eapply subseteq_take. rewrite Hp. by apply last_Some_elem_of. }
    pose proof (pending_shrinks_strictly _ _ _ Hrp) as Hlt.
    apply elem_of_pending in Hrp as [Hc _].
    pose proof (pending_after_page (lastId st) BATCH_SIZE (source w) r) as Hpg.
    rewrite Hp in Hpg. specialize (Hpg Hr).
    unfold pg in Hpg. cbn [length] in Hpg.
    destruct (upsert_cases ds w1) as [Hu|[[e Hu]|[e Hu]]].
    + rewrite (bind_Ret _ _ _ _ _ Hu). cbn [error].
      rewrite (bind_Ret _ _ _ _ _ (advance_Some _ _ r _ Hr)).
      intros [= <- <-]. do 5 (split; [done|]).
      intros st' [= <-]. unfold turns_left. simpl. lia.
    + rewrite (bind_Ret _ _ _ _ _ Hu). cbn [error].
      rewrite (bind_Ret _ _ _ _ _ (advance_Some _ _ r _ Hr)).
      intros [= <- <-]. do 5 (split; [done|]).
      intros st' [= <-]. unfold turns_left. simpl. lia.
    + rewrite (bind_Raise _ _ _ _ _ Hu).
      intros [= <- <-]. repeat split; done.
  - rewrite (bind_Ret _ _ _ _ _ H). cbn [error].
    destruct (10 <? totalErrors (skip_page st)) eqn:E.
    { intros [= <- <-]. do 4 (split; [done|]).
      split; [|done]. intros st' [= <-]. simpl. lia. }
    apply Z.ltb_ge in E. simpl in E.
    intros [= <- <-]. do 5 (split; [done|]).
    intros st' [= <-]. unfold turns_left. simpl.
    pose proof (pending_shrinks (lastId st) (lastId st + Z.of_nat BATCH_SIZE)
                  (source w) ltac:(lia)).
    unfold BATCH_SIZE in *. lia.
  - rewrite (bind_Raise _ _ _ _ _ H).
    intros [= <- <-]. repeat split; done.
Qed.

(** The loop of the upsert script ends within the turns it has left,
    whatever the datastore does; the cursors of its fetches go strictly
    up. *)
Lemma upsert_loop_terminates fuel : ∀ st w,
  (turns_left st w < fuel)%nat →
  ∃ o w' cursors,
    loop (Upsert.iteration tz) fuel st w = (o, w')
    ∧ o ≠ OutOfFuel ∧ (∀ c, o ≠ Exit c)
    ∧ source w' = source w
    ∧ fetches (log w') = map Some cursors ++ fetches (log w)
    ∧ StronglySorted (λ a b, b < a) cursors
    ∧ Forall (λ c, lastId st ≤ c) cursors
    ∧ (length cursors ≤ S (turns_left st w))%nat
    ∧ ∀ st', o = Ret st' →
        0 ≤ totalUpserted st' - totalUpserted st
          ≤ totalProcessed st' - totalProcessed st.
Proof.
  induction fuel as [|fuel IH]; intros st w Hfuel; [lia|].
  simpl loop.
  destruct (Upsert.iteration tz st w) as [o w1] eqn:Hit.
  destruct (upsert_iteration_progress st w o w1 Hit)
    as (Hs & Hlog & Hex & Hof & Hbr & Hco).
  destruct o as [[st1|st1]|e|c|].
  - destruct (Hco st1 eq_refl) as (Hid & _ & Hturns & Hacc & _).
    destruct (IH st1 w1 ltac:(lia))
      as (o & w' & cs & Hrun & ? & ? & Hs' & Hlog' & Hsorted & Hall & Hlen & Hacc').
    exists o, w', (cs ++ [lastId st]).
    rewrite (bind_Ret _ _ _ _ _ Hit). split; [done|].
    do 2 (split; [done|]). split; [congruence|].
    split; [by rewrite Hlog', Hlog, map_app, <- app_assoc|].
    split; [|split; [|split]].
    + apply StronglySorted_app_2; [|done|repeat constructor].
      intros a b Ha Hb%list_elem_of_singleton. subst b.
      pose proof (proj1 (Forall_forall _ _) Hall a Ha). simpl in *. lia.
    + apply Forall_app. split; [|by repeat constructor].
      eapply Forall_impl; [exact Hall|]. simpl. intros; lia.
    + rewrite length_app. simpl. lia.
    + intros st' ->. specialize (Hacc' st' eq_refl). lia.
  - exists (Ret st1), w1, [lastId st].
    rewrite (bind_Ret _ _ _ _ _ Hit). split; [done|].
    do 4 (split; [done|]).
    split; [repeat constructor|]. split; [by repeat constructor|].
    split; [simpl; lia|].
    intros st' [= <-]. destruct (Hbr st1 eq_refl) as (? & ? & _). lia.
  - exists (Raise e), w1, [lastId st].
    rewrite (bind_Raise _ _ _ _ _ Hit). split; [done|].
    do 4 (split; [done|]).
    split; [repeat constructor|]. split; [by repeat constructor|].
    split; [simpl; lia|]. done.
  - by destruct (Hex c).
  - done.
Qed.

(** What a run of the loop of the upsert script leaves behind, for every
    fuel and whatever the datastore does. *)
Lemma upsert_loop_trace fuel : ∀ st w o w',
  loop (Upsert.iteration tz) fuel st w = (o, w') →
  source w' = source w
  ∧ (∃ cursors,
       fetches (log w') = map Some cursors ++ fetches (log w)
       ∧ StronglySorted (λ a b, b < a) cursors
       ∧ Forall (λ c, lastId st ≤ c) cursors)
  ∧ ∀ st', o = Ret st' →
      lastId st ≤ lastId st'
      ∧ 0 ≤ totalUpserted st' - totalUpserted st
        ≤ totalProcessed st' - totalProcessed st
      ∧ totalProcessed st' - totalProcessed st
        ≤ Z.of_nat (length (pending (lastId st) (source w))).
Proof.
  induction fuel as [|fuel IH]; intros st w o w'.
  { intros [= <- <-]. split; [done|]. split; [|done].
    exists []. split; [done|]. split; constructor. }
  simpl loop.
  destruct (Upsert.iteration tz st w) as [o1 w1] eqn:Hit.
  destruct (upsert_iteration_progress st w o1 w1 Hit)
    as (Hs & Hlog & Hex & Hof & Hbr & Hco).
  destruct o1 as [[st1|st1]|e|c|].
  - rewrite (bind_Ret _ _ _ _ _ Hit). intros Hrun.
    destruct (Hco st1 eq_refl) as (Hid & _ & _ & Hacc & Hpend).
    destruct (IH st1 w1 o w' Hrun) as (Hs' & (cs & Hlog' & Hsorted & Hall) & Hret).
    split; [congruence|]. split.
    + exists (cs ++ [lastId st]).
      split; [by rewrite Hlog', Hlog, map_app, <- app_assoc|]. split.
      * apply StronglySorted_app_2; [|done|repeat constructor].
        intros a b Ha Hb%list_elem_of_singleton. subst b.
        pose proof (proj1 (Forall_forall _ _) Hall a Ha). simpl in *. lia.
      * apply Forall_app. split; [|by repeat constructor].
        eapply Forall_impl; [exact Hall|]. simpl. intros; lia.
    + intros st' ->. specialize (Hret st' eq_refl). rewrite Hs in Hret. lia.
  - rewrite (bind_Ret _ _ _ _ _ Hit). intros [= <- <-].
    split; [done|]. split.
    + exists [lastId st]. split; [done|]. split; repeat constructor. lia.
    + intros st' [= <-]. destruct (Hbr st1 eq_refl) as (Hp & Hu & Hl).
      rewrite Hp, Hu. lia.
  - rewrite (bind_Raise _ _ _ _ _ Hit). intros [= <- <-].
    split; [done|]. split; [|done].
    exists [lastId st]. split; [done|]. split; repeat constructor. lia.
  - by destruct (Hex c).
  - done.
Qed.

End Cursor.

(** X1.  migrate_records.js always ends: whatever the datastore answers to
    each call, and whatever the rows hold, with fuel above the number of
    source rows plus eleven the run exits with status 0 or 1 and has
    fetched at most that many times plus one. *)
Theorem upsert_script_always_exits tz w fuel :
  (length (source w) + 11 < fuel)%nat →
  ∃ c w',
    Upsert.run tz fuel w = (Exit c, w')
    ∧ (c = 0 ∨ c = 1)
    ∧ source w' = source w
    ∧ (length (fetches (log w'))
       ≤ length (fetches (log w)) + length (source w) + 12)%nat.
Proof.
  intros Hfuel. unfold Upsert.run, run, try_catch, main.
  destruct (count_source_cases w) as [H|[[e H]|[e H]]].
  2:{ rewrite (bind_Ret _ _ _ _ _ H). cbn [error].
      eexists _, _. split; [reflexivity|]. simpl. split; [by right|].
      split; [done|]. lia. }
  2:{ rewrite (bind_Raise _ _ _ _ _ H).
      eexists _, _. split; [reflexivity|]. simpl. split; [by right|].
      split; [done|]. lia. }
  rewrite (bind_Ret _ _ _ _ _ H). cbn [error].
  set (w1 := called EvCountSource (tail (faults w)) w).
  destruct (count_dest_world w1) as (o1 & Hc1 & Hex1 & Hof1).
  set (w2 := called EvCountDest (tail (faults w1)) w1) in *.
  destruct o1 as [a|e|c|]; [| |by destruct (Hex1 c)|done].
  2:{ rewrite (bind_Raise _ _ _ _ _ Hc1).
      eexists _, _. split; [reflexivity|]. simpl. split; [by right|].
      split; [done|]. lia. }
  rewrite (bind_Ret _ _ _ _ _ Hc1).
  destruct (upsert_loop_terminates tz fuel initial w2)
    as (o & w3 & cs & Hrun & Hof & Hex & Hs & Hlog & _ & _ & Hlen & _).
  { unfold turns_left. simpl.
    pose proof (pending_length 0 (source w)). lia. }
  assert (length cs ≤ length (source w) + 12)%nat as Hcs.
  { unfold turns_left in Hlen. simpl in Hlen.
    pose proof (pending_length 0 (source w)). lia. }
  assert (length (fetches (log w3))
          ≤ length (fetches (log w)) + length (source w) + 12)%nat as Hf3.
  { rewrite Hlog, length_app, length_map. simpl. lia. }
  destruct o as [st'|e|c|]; [| |by destruct (Hex c)|done].
  2:{ rewrite (bind_Raise _ _ _ _ _ Hrun).
      eexists _, _. split; [reflexivity|]. simpl. split; [by right|].
      split; [done|]. lia. }
  rewrite (bind_Ret _ _ _ _ _ Hrun).
  destruct (count_dest_world w3) as (o4 & Hc4 & Hex4 & Hof4).
  destruct o4 as [a4|e|c|]; [| |by destruct (Hex4 c)|done].
  2:{ rewrite (bind_Raise _ _ _ _ _ Hc4).
      eexists _, _. split; [reflexivity|]. simpl. split; [by right|].
      split; [done|]. lia. }
  rewrite (bind_Ret _ _ _ _ _ Hc4).
  destruct (0 <? totalErrors st'); eexists _, _; (split; [reflexivity|]);
    simpl; (split; [auto|]); (split; [done|]); lia.
Qed.

Lemma upsert_script_always_exits_witness :
  ∃ c w', Upsert.run 0 15 resynced_world = (Exit c, w') ∧ (c = 0 ∨ c = 1).
Proof.
  destruct (upsert_script_always_exits 0 resynced_world 15)
    as (c & w' & H & Hc & _); [simpl; lia|].
  exists c, w'. split; assumption.
Defined.

(** X2.  In every run of the loop of migrate_records.js, for every fuel
    and whatever the datastore does, the cursors of the successive fetches
    go strictly up from the cursor the loop started at, and the rows a
    fetch returns all lie beyond its cursor. *)
Theorem upsert_cursor_strictly_increases tz fuel st w o w' :
  loop (Upsert.iteration tz) fuel st w = (o, w') →
  ∃ cursors,
    fetches (log w') = map Some cursors ++ fetches (log w)
    ∧ StronglySorted (λ later earlier, earlier < later) cursors
    ∧ Forall (λ c, lastId st ≤ c) cursors
    ∧ ∀ c r, c ∈ cursors → r ∈ page (Some c) BATCH_SIZE (source w') →
        c < Src.id r.
Proof.
  intros Hrun.
  destruct (upsert_loop_trace tz fuel st w o w' Hrun)
    as (_ & (cs & Hlog & Hsorted & Hall) & _).
  exists cs. do 3 (split; [done|]).
  intros c r _ Hr. rewrite page_Some in Hr.
  apply subseteq_take, elem_of_pending in Hr as [? _]. done.
Qed.

Lemma upsert_cursor_strictly_increases_witness :
  ∃ cursors,
    fetches (log (loop (Upsert.iteration 0) 4 initial scenario_world).2)
    = map Some cursors ++ fetches (log scenario_world)
    ∧ StronglySorted (λ later earlier, earlier < later) cursors.
Proof.
  destruct (upsert_cursor_strictly_increases 0 4 initial scenario_world
              (loop (Upsert.iteration 0) 4 initial scenario_world).1
              (loop (Upsert.iteration 0) 4 initial scenario_world).2)
    as (cs & Hlog & Hs & _); [vm_compute; reflexivity|].
  exists cs. split; assumption.
Defined.

(** X3.  When the loop of migrate_records.js returns, whatever the
    datastore did: the cursor has not moved down, no more rows are counted
    as upserted than as processed, and no more as processed than the source
    holds after the cursor the loop started at, so no row is processed
    twice. *)
Theorem upsert_accounting tz fuel st w st' w' :
  loop (Upsert.iteration tz) fuel st w = (Ret st', w') →
  lastId st ≤ lastId st'
  ∧ 0 ≤ totalUpserted st' - totalUpserted st
    ≤ totalProcessed st' - totalProcessed st
  ∧ totalProcessed st' - totalProcessed st
    ≤ Z.of_nat (length (pending (lastId st) (source w)))
  ∧ (length (pending (lastId st) (source w)) ≤ length (source w))%nat.
Proof.
  intros Hrun.
  destruct (upsert_loop_trace tz fuel st w (Ret st') w' Hrun) as (_ & _ & H).
  destruct (H st' eq_refl) as (? & ? & ?).
  repeat split; try lia. apply pending_length.
Qed.

Lemma upsert_accounting_witness :
  ∃ st' w',
    loop (Upsert.iteration 0) 4 initial scenario_world = (Ret st', w')
    ∧ 0 ≤ totalUpserted st' - 0 ≤ totalProcessed st' - 0.
Proof.
  eexists _, _. split; [vm_compute; reflexivity|].
  eapply (upsert_accounting 0 4 initial scenario_world). vm_compute. reflexivity.
Defined.

(** X4.  In both scripts, when the count of the source fails, with an error
    payload or a rejected promise, the process exits with status 1 having
    made that one call: nothing is fetched and nothing written. *)
Theorem source_count_failure_is_fatal tz fuel w f rest :
  faults w = f :: rest → fails f = true →
  Upsert.run tz fuel w = (Exit 1, called EvCountSource rest w)
  ∧ Prefilter.run tz fuel w = (Exit 1, called EvCountSource rest w).
Proof.
  intros Hfs Hf.
  assert (∀ it, run it fuel w = (Exit 1, called EvCountSource rest w)) as H.
  { intros it. unfold run, try_catch, main.
    destruct (count_source_cases w) as [H|[[e H]|[e H]]];
      rewrite Hfs in H; simpl in H.
    - unfold count_source in H. rewrite (call_faulty _ _ w _ rest Hfs) in H.
      by destruct f.
    - by rewrite (bind_Ret _ _ _ _ _ H).
    - by rewrite (bind_Raise _ _ _ _ _ H). }
  split; apply H.
Qed.

Lemma source_count_failure_is_fatal_witness :
  Upsert.run 0 4
    {| source := [plain_row 1]; dest := ∅;
       faults := [Rejects {| message := "fetch failed" |}]; log := [] |}
  = (Exit 1,
     {| source := [plain_row 1]; dest := ∅; faults := [];
        log := [EvCountSource] |}).
Proof.
  apply (source_count_failure_is_fatal 0 4
           {| source := [plain_row 1]; dest := ∅;
              faults := [Rejects {| message := "fetch failed" |}];
              log := [] |} (Rejects {| message := "fetch failed" |}) []);
    reflexivity.
Defined.

(** ** What the upsert script writes *)

Section UpsertWrites.

Variable tz : Z.

Lemma sorted_ids_NoDup (l : list Src.row) :
  StronglySorted id_lt l → NoDup (map Src.id l).
Proof.
  induction 1 as [|x l _ IH Hx]; simpl; [constructor|].
  apply NoDup_cons. split; [|done].
  intros (y & Hid & Hy)%list_elem_of_fmap.
  pose proof (proj1 (Forall_forall _ _) Hx y Hy) as Hlt.
  unfold id_lt in Hlt. lia.
Qed.

Lemma sorted_ids (l : list Src.row) :
  StronglySorted id_lt l → StronglySorted Z.lt (map Src.id l).
Proof.
  induction 1 as [|x l _ IH Hx]; simpl; constructor; [done|].
  apply Forall_fmap. eapply Forall_impl; [exact Hx|]. done.
Qed.

Lemma pending_NoDup c rows :
  NoDup (map Src.id rows) → NoDup (map Src.id (pending c rows)).
Proof. intros. by apply sorted_ids_NoDup, pending_sorted. Qed.

(** Under a primary key, the row a batch leaves at the id of a source row
    is the transform of that row. *)
Lemma upsert_rows_transformed rows ds (table : gmap Z Dest.row) r :
  map_transformRow tz rows = Ok ds →
  NoDup (map Src.id rows) →
  r ∈ rows →
  ∃ d, transformRow tz r = Ok d ∧ upsert_rows ds table !! Src.id r = Some d.
Proof.
  intros H%map_transformRow_Forall2. revert table.
  induction H as [|r0 d0 rows ds Hd HF IH]; intros table Hnd Hr.
  { by apply not_elem_of_nil in Hr. }
  simpl in Hnd. apply NoDup_cons in Hnd as [Hfresh Hnd].
  rewrite upsert_rows_cons.
  apply elem_of_cons in Hr as [-> | Hr]; [|by apply IH].
  exists d0. split; [done|].
  pose proof (transformRow_inv tz r0 d0 Hd) as (_ & _ & Hid & _).
  rewrite upsert_rows_frame.
  - rewrite <- Hid. apply lookup_insert_eq.
  - assert (map Dest.id ds = map Src.id rows) as ->; [|done].
    clear -HF. induction HF as [|x y l k Hxy _ IH']; simpl; [done|].
    pose proof (transformRow_inv tz x y Hxy) as (_ & _ & -> & _).
    by rewrite IH'.
Qed.

(** A turn of the upsert script whose upsert resolves with an error: the
    failure is counted, the destination is as it was, and the cursor is on
    the last row of the page all the same. *)
Lemma upsert_iteration_write_error st w e rest rows ds r :
  faults w = NoFault :: ErrorPayload e :: rest →
  take BATCH_SIZE (pending (lastId st) (source w)) = rows →
  last rows = Some r →
  map_transformRow tz rows = Ok ds →
  Upsert.iteration tz st w
  = (Ret (Continue
            {| totalProcessed := totalProcessed st + Z.of_nat (length rows);
               totalUpserted := totalUpserted st;
               totalErrors := totalErrors st + 1;
               lastId := Src.id r |}),
     {| source := source w; dest := dest w; faults := rest;
        log := EvUpsert ds :: EvFetch (Some (lastId st)) :: log w |}).
Proof.
  intros Hfs Hp Hlast Hds. unfold Upsert.iteration, Upsert.after.
  destruct (select_source_cases (Some (lastId st)) BATCH_SIZE w)
    as [H|[[e' H]|[e' H]]];
    [| unfold select_source in H; rewrite (call_faulty _ _ w _ _ Hfs) in H;
       discriminate ..].
  rewrite (bind_Ret _ _ _ _ _ H). cbn [error data]. rewrite page_Some, Hp.
  destruct rows as [|r0 rows]; [discriminate|]. cbv iota.
  rewrite (bind_Ret _ _ _ _ _ (lift_Ok _ ds _ Hds)).
  rewrite Hfs. simpl tail.
  assert (upsert ds (called (EvFetch (Some (lastId st)))
                       (ErrorPayload e :: rest) w)
          = (Ret {| data := None; error := Some e |},
             called (EvUpsert ds) rest
               (called (EvFetch (Some (lastId st)))
                  (ErrorPayload e :: rest) w))) as Hu.
  { unfold upsert. by rewrite (call_faulty _ _ _ (ErrorPayload e) rest). }
  rewrite (bind_Ret _ _ _ _ _ Hu). cbn [error].
  by rewrite (bind_Ret _ _ _ _ _ (advance_Some _ _ r _ Hlast)).
Qed.

End UpsertWrites.

(** X5.  In migrate_records.js a batch whose upsert resolves with an error
    is lost for the run: the turn counts one error and writes nothing, the
    cursor moves to the last row of the page, and no fetch at that cursor or
    a later one returns a row of the page again. *)
Theorem upsert_failed_batch_is_skipped tz st w e rest rows ds r :
  faults w = NoFault :: ErrorPayload e :: rest →
  take BATCH_SIZE (pending (lastId st) (source w)) = rows →
  last rows = Some r →
  map_transformRow tz rows = Ok ds →
  ∃ st' w',
    Upsert.iteration tz st w = (Ret (Continue st'), w')
    ∧ dest w' = dest w
    ∧ totalErrors st' = totalErrors st + 1
    ∧ totalUpserted st' = totalUpserted st
    ∧ lastId st' = Src.id r
    ∧ ∀ c n x, lastId st' ≤ c → x ∈ rows →
        x ∉ page (Some c) n (source w').
Proof.
  intros Hfs Hp Hlast Hds. eexists _, _. split.
  { by apply (upsert_iteration_write_error tz st w e rest rows ds r). }
  simpl. do 4 (split; [done|]).
  intros c n x Hc Hx Hin. rewrite page_Some in Hin.
  apply subseteq_take, elem_of_pending in Hin as [Hlt _].
  assert (Src.id x ≤ Src.id r); [|lia].
  assert (StronglySorted id_le rows) as Hs.
  { rewrite <- Hp.
    assert (StronglySorted id_le (pending (lastId st) (source w))) as Hs'.
    { apply StronglySorted_filter, order_by_id_sorted. }
    rewrite <- (take_drop BATCH_SIZE (pending (lastId st) (source w))) in Hs'.
    by apply StronglySorted_app_1_l in Hs'. }
  apply last_Some in Hlast as [l' ->].
  apply elem_of_app in Hx as [Hx|Hx%list_elem_of_singleton]; [|subst; lia].
  apply (StronglySorted_app_1_elem_of id_le _ _ x r Hs Hx). by left.
Qed.

Lemma upsert_failed_batch_is_skipped_witness :
  ∃ st' w',
    Upsert.iteration 0 initial
      {| source := [plain_row 2]; dest := ∅;
         faults := [NoFault; ErrorPayload {| message := "statement timeout" |}];
         log := [] |}
    = (Ret (Continue st'), w')
    ∧ dest w' = ∅
    ∧ totalErrors st' = 0 + 1.
Proof.
  destruct (upsert_failed_batch_is_skipped 0 initial
              {| source := [plain_row 2]; dest := ∅;
                 faults := [NoFault;
                            ErrorPayload {| message := "statement timeout" |}];
                 log := [] |}
              {| message := "statement timeout" |} [] [plain_row 2]
              [synced_row 2 false] (plain_row 2))
    as (st' & w' & H & Hd & He & _); try reflexivity.
  exists st', w'. repeat split; assumption.
Defined.

(** X6.  migrate_records.js over a datastore that does not fail, a source
    with a primary key and typed rows: the run exits with status 0, every
    source row with a positive id is in the destination as [transformRow]
    makes it, and every other id of the destination is as it was. *)
Theorem upsert_run_migrates_every_row tz fuel w :
  faults w = [] →
  NoDup (map Src.id (source w)) →
  Forall well_typed (source w) →
  (length (source w) < fuel)%nat →
  ∃ w1,
    Upsert.run tz fuel w = (Exit 0, w1)
    ∧ (∀ r, r ∈ source w → 0 < Src.id r →
         ∃ d, transformRow tz r = Ok d ∧ dest w1 !! Src.id r = Some d)
    ∧ (∀ k, (∀ r, r ∈ source w → 0 < Src.id r → Src.id r ≠ k) →
         dest w1 !! k = dest w !! k).
Proof.
  intros Hf Hnd Hwt Hfuel.
  destruct (upsert_run_clean tz fuel w) as (w1 & ds & Hrun & Hds & Hd & _);
    try done.
  exists w1. split; [done|]. rewrite Hd. split.
  - intros r Hr Hpos.
    apply (upsert_rows_transformed tz (pending 0 (source w))); try done.
    + by apply pending_NoDup.
    + by apply elem_of_pending.
  - intros k Hk. apply upsert_rows_frame.
    rewrite (map_transformRow_ids tz _ ds Hds).
    intros (r & -> & [Hpos Hr]%elem_of_pending)%list_elem_of_fmap.
    by apply (Hk r).
Qed.

Lemma upsert_run_migrates_every_row_witness :
  ∃ w1,
    Upsert.run 0 4 scenario_world = (Exit 0, w1)
    ∧ ∃ d, transformRow 0 (plain_row 3) = Ok d ∧ dest w1 !! 3 = Some d.
Proof.
  destruct (upsert_run_migrates_every_row 0 4 scenario_world)
    as (w1 & Hrun & Hrows & _).
  - reflexivity.
  - apply (bool_decide_unpack _). vm_compute. reflexivity.
  - repeat (apply Forall_cons_2; [right; eexists; reflexivity|]).
    apply Forall_nil_2.
  - simpl. lia.
  - exists w1. split; [assumption|].
    apply (Hrows (plain_row 3)); [|reflexivity].
    apply list_elem_of_In. simpl. auto.
Defined.

(** X7.  Skip-and-advance loses a page.  When the first fetch of
    migrate_records.js resolves with an error and every later call
    succeeds, the run exits with status 1; the source rows with an id above
    1000 are in the destination as [transformRow] makes them, and no id at
    or below 1000 has been written, whatever the source holds there. *)
Theorem skip_and_advance_drops_first_page tz fuel w e :
  faults w = [NoFault; NoFault; ErrorPayload e] →
  NoDup (map Src.id (source w)) →
  Forall well_typed (source w) →
  (S (length (source w)) < fuel)%nat →
  ∃ w1,
    Upsert.run tz fuel w = (Exit 1, w1)
    ∧ (∀ r, r ∈ source w → 1000 < Src.id r →
         ∃ d, transformRow tz r = Ok d ∧ dest w1 !! Src.id r = Some d)
    ∧ (∀ k, k ≤ 1000 → dest w1 !! k = dest w !! k).
Proof.
  intros Hfs Hnd Hwt Hfuel.
  destruct fuel as [|fuel]; [lia|].
  set (w1 := called EvCountSource [NoFault; ErrorPayload e] w).
  set (w2 := called EvCountDest [ErrorPayload e] w1).
  set (w3 := called (EvFetch (Some 0)) [] w2).
  assert (count_source w
          = (Ret {| data := Some (length (source w)); error := None |}, w1))
    as Hcs.
  { unfold count_source. by rewrite (call_faulty _ _ w _ _ Hfs). }
  assert (count_dest w1
          = (Ret {| data := Some (size (dest w)); error := None |}, w2))
    as Hcd.
  { unfold count_dest.
    by rewrite (call_faulty _ _ w1 NoFault [ErrorPayload e]). }
  assert (Upsert.iteration tz initial w2
          = (Ret (Continue (skip_page initial)), w3)) as Hit.
  { by rewrite (upsert_iteration_fetch_error tz initial w2 e []). }
  destruct (upsert_loop_clean tz fuel (skip_page initial) w3)
    as (st' & w4 & ds & Hloop & Hds & Hd & Hs & Hf4 & He); try done.
  { simpl. pose proof (pending_length (0 + Z.of_nat BATCH_SIZE) (source w)).
    lia. }
  exists (called EvCountDest [] w4). split.
  - unfold Upsert.run, run, try_catch, main.
    rewrite (bind_Ret _ _ w _ w1 Hcs). cbn [error].
    rewrite (bind_Ret _ _ w1 _ w2 Hcd).
    assert (loop (Upsert.iteration tz) (S fuel) initial w2 = (Ret st', w4))
      as Hloop'.
    { simpl loop. by rewrite (bind_Ret _ _ _ _ _ Hit). }
    rewrite (bind_Ret _ _ w2 _ w4 Hloop').
    assert (count_dest w4
            = (Ret {| data := Some (size (dest w4)); error := None |},
               called EvCountDest [] w4)) as Hc4.
    { unfold count_dest. by rewrite call_clean. }
    rewrite (bind_Ret _ _ w4 _ _ Hc4). by rewrite He.
  - simpl dest. rewrite Hd. simpl in Hds. split.
    + intros r Hr Hpos.
      apply (upsert_rows_transformed tz
               (pending (0 + Z.of_nat BATCH_SIZE) (source w))); try done.
      * by apply pending_NoDup.
      * apply elem_of_pending. split; [|done]. unfold BATCH_SIZE. lia.
    + intros k Hk. apply upsert_rows_frame.
      rewrite (map_transformRow_ids tz _ ds Hds).
      intros (r & -> & [Hpos Hr]%elem_of_pending)%list_elem_of_fmap.
      unfold BATCH_SIZE in Hpos. lia.
Qed.

Lemma skip_and_advance_drops_first_page_witness :
  ∃ w1,
    Upsert.run 0 5
      {| source := [plain_row 1; plain_row 1001]; dest := ∅;
         faults := [NoFault; NoFault; ErrorPayload {| message := "502" |}];
         log := [] |}
    = (Exit 1, w1)
    ∧ dest w1 !! 1 = None.
Proof.
  destruct (skip_and_advance_drops_first_page 0 5
              {| source := [plain_row 1; plain_row 1001]; dest := ∅;
                 faults := [NoFault; NoFault;
                            ErrorPayload {| message := "502" |}];
                 log := [] |} {| message := "502" |})
    as (w1 & Hrun & _ & Hlow).
  - reflexivity.
  - apply (bool_decide_unpack _). vm_compute. reflexivity.
  - repeat (apply Forall_cons_2; [right; eexists; reflexivity|]).
    apply Forall_nil_2.
  - simpl. lia.
  - exists w1. split; [assumption|]. rewrite (Hlow 1); [reflexivity|lia].
Defined.

(** ** The calls of a run that meets no failure *)

Section CleanCalls.

Variable tz : Z.

#[local] Arguments BATCH_SIZE : simpl never.

Lemma pages_step n : (0 < n)%nat → pages n = S (pages (n - BATCH_SIZE)).
Proof.
  intros Hn. unfold pages, BATCH_SIZE.
  destruct (le_lt_dec n 1000) as [Hle|Hgt].
  - replace (n - 1000)%nat with 0%nat by lia.
    rewrite (Nat.div_small (0 + (1000 - 1)) 1000) by lia.
    symmetry. apply (Nat.div_unique _ _ _ (n - 1)); lia.
  - replace (n + (1000 - 1))%nat
      with ((n - 1000 + (1000 - 1)) + 1 * 1000)%nat by lia.
    rewrite Nat.div_add by lia. lia.
Qed.

(** The loop of the upsert script over a datastore that does not fail: the
    batches it writes, newest first, are the transformed rows after the
    cursor cut into pages, and it fetches once more than it writes. *)
Lemma upsert_loop_clean_log fuel : ∀ st w,
  faults w = [] →
  NoDup (map Src.id (source w)) →
  Forall well_typed (source w) →
  (length (pending (lastId st) (source w)) < fuel)%nat →
  ∃ st' w' ds batches,
    loop (Upsert.iteration tz) fuel st w = (Ret st', w')
    ∧ map_transformRow tz (pending (lastId st) (source w)) = Ok ds
    ∧ faults w' = []
    ∧ totalErrors st' = totalErrors st
    ∧ upserts (log w') = batches ++ upserts (log w)
    ∧ concat (reverse batches) = ds
    ∧ Forall (λ b, (0 < length b ≤ BATCH_SIZE)%nat) batches
    ∧ length batches = pages (length (pending (lastId st) (source w)))
    ∧ length (fetches (log w'))
      = (length (fetches (log w)) + S (length batches))%nat
    ∧ totalProcessed st'
      = totalProcessed st
        + Z.of_nat (length (pending (lastId st) (source w)))
    ∧ totalUpserted st'
      = totalUpserted st
        + Z.of_nat (length (pending (lastId st) (source w))).
Proof.
  induction fuel as [|fuel IH]; intros st w Hf Hnd Hwt Hfuel; [lia|].
  simpl loop.
  destruct (pending (lastId st) (source w)) as [|p ps] eqn:Hp.
  - rewrite (bind_Ret _ _ _ _ _ (upsert_iteration_clean_empty tz st w Hf Hp)).
    eexists st, _, [], []. split; [reflexivity|]. simpl.
    repeat split; try done; try lia.
  - set (rows := take BATCH_SIZE (p :: ps)).
    destruct (last_is_Some rows) as [_ [r Hr]].
    { unfold rows, BATCH_SIZE. done. }
    destruct (map_transformRow_returns tz rows) as [ds1 Hds1].
    { apply Forall_forall. intros x Hx%subseteq_take.
      rewrite <- Hp in Hx. apply elem_of_pending in Hx as [_ Hx].
      by apply (proj1 (Forall_forall _ _) Hwt). }
    assert (take BATCH_SIZE (pending (lastId st) (source w)) = rows) as Hpg.
    { by rewrite Hp. }
    rewrite (bind_Ret _ _ _ _ _
               (upsert_iteration_clean tz st w rows ds1 r Hf Hpg Hr Hds1)).
    set (st1 := {| lastId := Src.id r |}).
    set (w1 := {| dest := upsert_rows ds1 (dest w) |}).
    assert (pending (lastId st1) (source w1) = drop BATCH_SIZE (p :: ps))
      as Hnext.
    { change (pending (Src.id r) (source w) = drop BATCH_SIZE (p :: ps)).
      rewrite <- Hp. apply pending_next; [done|]. by rewrite Hp. }
    assert (length rows = Nat.min BATCH_SIZE (length (p :: ps))) as Hlr.
    { unfold rows. apply length_take. }
    pose proof (map_transformRow_length tz rows ds1 Hds1) as Hl1.
    destruct (IH st1 w1)
      as (st' & w' & ds2 & bs & Hrun & Hds2 & Hf' & He & Hup & Hcat & Hsz
          & Hnb & Hnf & Hproc & Hups); try done.
    { rewrite Hnext, length_drop. cbn [length] in *. unfold BATCH_SIZE. lia. }
    rewrite Hnext in Hds2, Hnb, Hproc, Hups. rewrite length_drop in *.
    exists st', w', (ds1 ++ ds2), (bs ++ [ds1]). split; [done|].
    split.
    { rewrite <- (take_drop BATCH_SIZE (p :: ps)).
      by apply map_transformRow_app. }
    do 2 (split; [done|]).
    split; [by rewrite Hup, <- app_assoc|].
    split; [rewrite reverse_app; simpl; by rewrite Hcat|].
    split.
    { apply Forall_app. split; [done|]. constructor; [|constructor].
      cbn [length] in *. unfold BATCH_SIZE in *. lia. }
    split.
    { rewrite length_app, Hnb. simpl. rewrite Nat.add_1_r.
      symmetry. apply pages_step. simpl. lia. }
    split.
    { rewrite Hnf, length_app. simpl. lia. }
    unfold st1 in Hproc, Hups.
    cbn [totalProcessed totalUpserted length] in *. unfold BATCH_SIZE in *.
    split; lia.
Qed.

End CleanCalls.

(** X8.  migrate_records.js over a datastore that does not fail and a
    source of N rows with positive ids: the run makes ceil(N / 1000) + 1
    fetches and ceil(N / 1000) upserts; the batches hold between 1 and 1000
    records each and, in the order they were written, are the transformed
    rows in ascending order of id, each id once. *)
Theorem upsert_run_calls tz fuel w :
  faults w = [] →
  NoDup (map Src.id (source w)) →
  Forall well_typed (source w) →
  (length (source w) < fuel)%nat →
  ∃ w1 batches,
    Upsert.run tz fuel w = (Exit 0, w1)
    ∧ upserts (log w1) = batches ++ upserts (log w)
    ∧ length batches = pages (length (pending 0 (source w)))
    ∧ length (fetches (log w1))
      = (length (fetches (log w))
         + pages (length (pending 0 (source w))) + 1)%nat
    ∧ Forall (λ b, (0 < length b ≤ 1000)%nat) batches
    ∧ map Dest.id (concat (reverse batches))
      = map Src.id (pending 0 (source w))
    ∧ StronglySorted Z.lt (map Src.id (pending 0 (source w))).
Proof.
  intros Hf Hnd Hwt Hfuel.
  destruct (upsert_loop_clean_log tz fuel initial
              (called EvCountDest [] (called EvCountSource [] w)))
    as (st' & w' & ds & bs & Hloop & Hds & Hf' & He & Hup & Hcat & Hsz
        & Hnb & Hnf & _); try done.
  { simpl. pose proof (pending_length 0 (source w)). lia. }
  exists (called EvCountDest [] w'), bs. split.
  { unfold Upsert.run. by apply (run_clean _ fuel w st' w'). }
  simpl in *. do 2 (split; [done|]).
  split; [rewrite Hnf, Hnb; lia|]. split; [done|].
  split; [rewrite Hcat; by apply (map_transformRow_ids tz)|].
  apply sorted_ids, pending_sorted, Hnd.
Qed.

Lemma upsert_run_calls_witness :
  ∃ w1 batches,
    Upsert.run 0 4 scenario_world = (Exit 0, w1)
    ∧ upserts (log w1) = batches ++ upserts (log scenario_world)
    ∧ length batches = pages (length (pending 0 (source scenario_world))).
Proof.
  destruct (upsert_run_calls 0 4 scenario_world)
    as (w1 & bs & Hrun & Hup & Hn & _).
  - reflexivity.
  - apply (bool_decide_unpack _). vm_compute. reflexivity.
  - repeat (apply Forall_cons_2; [right; eexists; reflexivity|]).
    apply Forall_nil_2.
  - simpl. lia.
  - exists w1, bs. repeat split; assumption.
Defined.

(** ** The fetch of the sibling script *)

Section SiblingFetch.

Variable tz : Z.

Lemma prefilter_iteration_fetch_error st w e rest :
  faults w = ErrorPayload e :: rest →
  Prefilter.iteration tz st w
  = if Prefilter.is_connection_error e
    then (Ret (Continue st),
          record (EvSleep 2000) (called (EvFetch (Prefilter.after st)) rest w))
    else (Exit 1, called (EvFetch (Prefilter.after st)) rest w).
Proof.
  intros Hfs. unfold Prefilter.iteration.
  assert (select_source (Prefilter.after st) BATCH_SIZE w
          = (Ret {| data := None; error := Some e |},
             called (EvFetch (Prefilter.after st)) rest w)) as H.
  { unfold select_source. by rewrite (call_faulty _ _ w _ rest Hfs). }
  rewrite (bind_Ret _ _ _ _ _ H). cbn [error].
  unfold Prefilter.retry_or_exit.
  by destruct (Prefilter.is_connection_error e).
Qed.

Lemma prefilter_iteration_fetch_rejects st w e rest :
  faults w = Rejects e :: rest →
  Prefilter.iteration tz st w
  = (Raise e, called (EvFetch (Prefilter.after st)) rest w).
Proof.
  intros Hfs. unfold Prefilter.iteration.
  assert (select_source (Prefilter.after st) BATCH_SIZE w
          = (Raise e, called (EvFetch (Prefilter.after st)) rest w)) as H.
  { unfold select_source. by rewrite (call_faulty _ _ w _ rest Hfs). }
  by rewrite (bind_Raise _ _ _ _ _ H).
Qed.

(** A turn of the sibling script on a first page that ends at or below 0,
    the datastore not failing: the turn ends with [continue] and the cursor
    is still at or below 0. *)
Lemma prefilter_iteration_stalls st w r :
  faults w = [] →
  Forall well_typed (source w) →
  lastId st ≤ 0 →
  last (take BATCH_SIZE (order_by_id (source w))) = Some r →
  Src.id r ≤ 0 →
  ∃ st' w',
    Prefilter.iteration tz st w = (Ret (Continue st'), w')
    ∧ lastId st' ≤ 0
    ∧ faults w' = []
    ∧ source w' = source w.
Proof.
  intros Hf Hwt Hc Hlast Hr.
  set (rows := take BATCH_SIZE (order_by_id (source w))) in *.
  assert (Prefilter.after st = None) as Hafter.
  { unfold Prefilter.after.
    destruct (0 <? lastId st) eqn:E; [apply Z.ltb_lt in E; lia | done]. }
  assert (rows ≠ []) as Hne by (intros E; rewrite E in Hlast; discriminate).
  destruct (map_transformRow_returns tz rows) as [ds Hds].
  { apply Forall_forall. intros x Hx%subseteq_take.
    rewrite elem_of_order_by_id in Hx.
    by apply (proj1 (Forall_forall _ _) Hwt). }
  rewrite (prefilter_iteration_fetched tz st w rows ds);
    [| by rewrite Hf | by rewrite Hafter | done | done].
  rewrite Hf. simpl tail. unfold bind at 1.
  rewrite check_existing_ok by done. simpl dest. simpl tail.
  rewrite (new_records_checked (dest w) (map Src.id rows) ds
             (map_transformRow_ids tz rows ds Hds)).
  destruct (write_new_clean rows
              (filter (λ d, dest w !! Dest.id d = None) ds) st
              (called (EvExisting (map Src.id rows)) []
                 (called (EvFetch (Prefilter.after st)) [] w)) r)
    as (st' & w' & Hw & Hid & _ & Hf' & Hs & _); [done | done |].
  exists st', w'. split; [exact Hw|]. rewrite Hid. done.
Qed.

Lemma prefilter_loop_stalls fuel : ∀ st w r,
  faults w = [] →
  Forall well_typed (source w) →
  lastId st ≤ 0 →
  last (take BATCH_SIZE (order_by_id (source w))) = Some r →
  Src.id r ≤ 0 →
  ∃ w', loop (Prefilter.iteration tz) fuel st w = (OutOfFuel, w').
Proof.
  induction fuel as [|fuel IH]; intros st w r Hf Hwt Hc Hlast Hr.
  { eexists. reflexivity. }
  destruct (prefilter_iteration_stalls st w r)
    as (st' & w1 & Hit & Hc' & Hf' & Hs'); try done.
  simpl loop. rewrite (bind_Ret _ _ _ _ _ Hit).
  apply (IH st' w1 r); try done; by rewrite Hs'.
Qed.

(** Fetch errors that name a connection trouble, in a row: the loop is
    where it was, as many turns and pauses later. *)
Lemma prefilter_loop_waits es : ∀ st w rest fuel,
  Forall (λ e, Prefilter.is_connection_error e = true) es →
  faults w = map ErrorPayload es ++ rest →
  loop (Prefilter.iteration tz) (length es + fuel) st w
  = loop (Prefilter.iteration tz) fuel st
      {| source := source w; dest := dest w; faults := rest;
         log := wait_log (length es) (Prefilter.after st) (log w) |}.
Proof.
  induction es as [|e es IH]; intros st w rest fuel Hes Hfs.
  { simpl in *. by destruct w; simpl in *; subst. }
  apply Forall_cons in Hes as [He Hes].
  simpl length. simpl Nat.add. simpl loop.
  pose proof (prefilter_iteration_fetch_error st w e
                (map ErrorPayload es ++ rest) Hfs) as Hit.
  rewrite He in Hit. rewrite (bind_Ret _ _ _ _ _ Hit).
  by rewrite (IH st (record (EvSleep 2000)
                       (called (EvFetch (Prefilter.after st))
                          (map ErrorPayload es ++ rest) w))
                rest fuel Hes eq_refl).
Qed.

End SiblingFetch.

(** X9.  The sibling script does not end when the first page of the source
    ends at an id at or below 0 (one row with id 0 is enough): over a
    datastore that does not fail, the cursor never gets past 0, the filter
    is never added, and for every fuel the run is still in its loop. *)
Theorem prefilter_run_never_ends tz w r :
  faults w = [] →
  Forall well_typed (source w) →
  last (take BATCH_SIZE (order_by_id (source w))) = Some r →
  Src.id r ≤ 0 →
  ∀ fuel, ∃ w', Prefilter.run tz fuel w = (OutOfFuel, w').
Proof.
  intros Hf Hwt Hlast Hr fuel.
  destruct (prefilter_loop_stalls tz fuel initial
              (called EvCountDest [] (called EvCountSource [] w)) r)
    as [w' Hloop]; try done.
  exists w'. unfold Prefilter.run, run, try_catch, main.
  assert (count_source w
          = (Ret {| data := Some (length (source w)); error := None |},
             called EvCountSource [] w)) as Hcs.
  { unfold count_source. by rewrite call_clean. }
  assert (count_dest (called EvCountSource [] w)
          = (Ret {| data := Some (size (dest w)); error := None |},
             called EvCountDest [] (called EvCountSource [] w))) as Hcd.
  { unfold count_dest. by rewrite call_clean. }
  rewrite (bind_Ret _ _ _ _ _ Hcs). cbn [error].
  rewrite (bind_Ret _ _ _ _ _ Hcd).
  by rewrite (bind_OutOfFuel _ _ _ _ Hloop).
Qed.

Lemma prefilter_run_never_ends_witness :
  ∃ w',
    Prefilter.run 0 50
      {| source := [plain_row 0]; dest := ∅; faults := []; log := [] |}
    = (OutOfFuel, w').
Proof.
  apply (prefilter_run_never_ends 0
           {| source := [plain_row 0]; dest := ∅; faults := []; log := [] |}
           (plain_row 0)).
  - reflexivity.
  - apply Forall_cons_2; [right; eexists; reflexivity | apply Forall_nil_2].
  - reflexivity.
  - simpl. lia.
Defined.

(** X10.  Retry in place.  In the sibling script, fetches that resolve with
    an error whose message holds "terminated", "timeout" or "connection",
    however many in a row, leave the cursor, the counters and the tables as
    they are: each costs one turn and one pause of 2000 ms with the same
    query sent again, and no error is counted. *)
Theorem prefilter_retries_fetch_in_place tz es st w rest fuel :
  Forall (λ e, Prefilter.is_connection_error e = true) es →
  faults w = map ErrorPayload es ++ rest →
  loop (Prefilter.iteration tz) (length es + fuel) st w
  = loop (Prefilter.iteration tz) fuel st
      {| source := source w; dest := dest w; faults := rest;
         log := wait_log (length es) (Prefilter.after st) (log w) |}
  ∧ sleeps (wait_log (length es) (Prefilter.after st) (log w))
    = replicate (length es) 2000 ++ sleeps (log w)
  ∧ fetches (wait_log (length es) (Prefilter.after st) (log w))
    = replicate (length es) (Prefilter.after st) ++ fetches (log w).
Proof.
  intros Hes Hfs. split; [by apply prefilter_loop_waits|].
  generalize (log w). clear. induction es as [|e es IH]; intros l; [done|].
  simpl length. simpl wait_log.
  destruct (IH (EvSleep 2000 :: EvFetch (Prefilter.after st) :: l))
    as [-> ->].
  split; simpl.
  - change (2000 :: sleeps l) with ([2000] ++ sleeps l).
    by rewrite app_assoc, <- replicate_S_end.
  - change (Prefilter.after st :: fetches l)
      with ([Prefilter.after st] ++ fetches l).
    by rewrite app_assoc, <- replicate_S_end.
Qed.

Lemma prefilter_retries_fetch_in_place_witness :
  loop (Prefilter.iteration 0) (2 + 3) initial
    {| source := [plain_row 1]; dest := ∅;
       faults := map ErrorPayload
                   [ {| message := "connection terminated" |};
                     {| message := "upstream timeout" |} ];
       log := [] |}
  = loop (Prefilter.iteration 0) 3 initial
      {| source := [plain_row 1]; dest := ∅; faults := [];
         log := [EvSleep 2000; EvFetch None; EvSleep 2000; EvFetch None] |}.
Proof.
  apply (prefilter_retries_fetch_in_place 0
           [ {| message := "connection terminated" |};
             {| message := "upstream timeout" |} ] initial
           {| source := [plain_row 1]; dest := ∅;
              faults := map ErrorPayload
                          [ {| message := "connection terminated" |};
                            {| message := "upstream timeout" |} ];
              log := [] |} [] 3).
  - repeat (apply Forall_cons_2; [reflexivity|]). apply Forall_nil_2.
  - reflexivity.
Defined.

(** X11.  In the sibling script a first fetch that resolves with an error
    naming no connection trouble, or whose promise is rejected whatever its
    message, ends the process with status 1 at once: one fetch, no pause,
    no write. *)
Theorem prefilter_fetch_failure_is_fatal tz fuel w f rest :
  faults w = NoFault :: NoFault :: f :: rest →
  match f with
  | NoFault => False
  | ErrorPayload e => Prefilter.is_connection_error e = false
  | Rejects _ => True
  end →
  ∃ w',
    Prefilter.run tz (S fuel) w = (Exit 1, w')
    ∧ dest w' = dest w
    ∧ log w' = [EvFetch None; EvCountDest; EvCountSource] ++ log w.
Proof.
  intros Hfs Hf.
  set (w1 := called EvCountSource (NoFault :: f :: rest) w).
  set (w2 := called EvCountDest (f :: rest) w1).
  assert (count_source w
          = (Ret {| data := Some (length (source w)); error := None |}, w1))
    as Hcs.
  { unfold count_source. by rewrite (call_faulty _ _ w _ _ Hfs). }
  assert (count_dest w1
          = (Ret {| data := Some (size (dest w)); error := None |}, w2))
    as Hcd.
  { unfold count_dest. by rewrite (call_faulty _ _ w1 NoFault (f :: rest)). }
  exists (called (EvFetch None) rest w2).
  split; [|done].
  unfold Prefilter.run, run, try_catch, main.
  rewrite (bind_Ret _ _ _ _ _ Hcs). cbn [error].
  rewrite (bind_Ret _ _ _ _ _ Hcd).
  destruct f as [|e|e]; [done| |].
  - pose proof (prefilter_iteration_fetch_error tz initial w2 e rest eq_refl)
      as Hit.
    rewrite Hf in Hit.
    assert (loop (Prefilter.iteration tz) (S fuel) initial w2
            = (Exit 1, called (EvFetch None) rest w2)) as Hloop.
    { simpl loop. by rewrite (bind_Exit _ _ _ _ _ Hit). }
    by rewrite (bind_Exit _ _ _ _ _ Hloop).
  - pose proof (prefilter_iteration_fetch_rejects tz initial w2 e rest eq_refl)
      as Hit.
    assert (loop (Prefilter.iteration tz) (S fuel) initial w2
            = (Raise e, called (EvFetch None) rest w2)) as Hloop.
    { simpl loop. by rewrite (bind_Raise _ _ _ _ _ Hit). }
    by rewrite (bind_Raise _ _ _ _ _ Hloop).
Qed.

Lemma prefilter_fetch_failure_is_fatal_witness :
  ∃ w',
    Prefilter.run 0 1
      {| source := [plain_row 1]; dest := ∅;
         faults := [NoFault; NoFault;
                    Rejects {| message := "connection timeout" |}];
         log := [] |}
    = (Exit 1, w')
    ∧ dest w' = ∅.
Proof.
  destruct (prefilter_fetch_failure_is_fatal 0 0
              {| source := [plain_row 1]; dest := ∅;
                 faults := [NoFault; NoFault;
                            Rejects {| message := "connection timeout" |}];
                 log := [] |}
              (Rejects {| message := "connection timeout" |}) [])
    as (w' & Hrun & Hd & _); [reflexivity | exact I |].
  exists w'. split; assumption.
Defined.

(** X12.  In the sibling script, when the promise of the existence check
    is rejected: with a message naming a connection trouble the turn ends
    with [continue] after a pause of 2000 ms, cursor and counters as they
    were, so the same page is fetched again; with any other message the
    process exits with status 1.  Nothing is written either way. *)
Theorem prefilter_existence_check_rejected tz st w e rest rows ds :
  faults w = NoFault :: Rejects e :: rest →
  page (Prefilter.after st) BATCH_SIZE (source w) = rows → rows ≠ [] →
  map_transformRow tz rows = Ok ds →
  ∃ w',
    Prefilter.iteration tz st w
    = (if Prefilter.is_connection_error e
       then Ret (Continue st) else Exit 1, w')
    ∧ dest w' = dest w
    ∧ faults w' = rest
    ∧ upserts (log w') = upserts (log w)
    ∧ sleeps (log w')
      = if Prefilter.is_connection_error e
        then 2000 :: sleeps (log w) else sleeps (log w).
Proof.
  intros Hfs Hpage Hne Hds.
  rewrite (prefilter_iteration_fetched tz st w rows ds);
    [| by rewrite Hfs | done | done | done].
  rewrite Hfs. simpl tail. unfold bind at 1.
  rewrite (check_existing_rejects _ _ _ e rest) by done.
  destruct (Prefilter.is_connection_error e);
    eexists; (split; [reflexivity|]); done.
Qed.

Lemma prefilter_existence_check_rejected_witness :
  ∃ w',
    Prefilter.iteration 0 initial
      {| source := [plain_row 1]; dest := ∅;
         faults := [NoFault; Rejects {| message := "socket terminated" |}];
         log := [] |}
    = (Ret (Continue initial), w')
    ∧ dest w' = ∅.
Proof.
  destruct (prefilter_existence_check_rejected 0 initial
              {| source := [plain_row 1]; dest := ∅;
                 faults := [NoFault;
                            Rejects {| message := "socket terminated" |}];
                 log := [] |}
              {| message := "socket terminated" |} [] [plain_row 1]
              [synced_row 1 false])
    as (w' & Hrun & Hd & _); [reflexivity | reflexivity | discriminate
                             | reflexivity |].
  exists w'. split; assumption.
Defined.

(** ** What the sibling script writes *)

Section SiblingWrites.

Variable tz : Z.

#[local] Arguments BATCH_SIZE : simpl never.

Lemma upsert_rows_NoDup_lookup ds (table : gmap Z Dest.row) d :
  NoDup (map Dest.id ds) → d ∈ ds →
  upsert_rows ds table !! Dest.id d = Some d.
Proof.
  revert table. induction ds as [|d0 ds IH]; intros table Hnd Hd.
  { by apply not_elem_of_nil in Hd. }
  simpl in Hnd. apply NoDup_cons in Hnd as [Hfresh Hnd].
  rewrite upsert_rows_cons.
  apply elem_of_cons in Hd as [-> | Hd]; [|by apply IH].
  rewrite upsert_rows_frame by done. apply lookup_insert_eq.
Qed.

Lemma NoDup_fmap_filter {A B} (f : A → B) (P : A → Prop)
    `{!∀ x, Decision (P x)} (l : list A) :
  NoDup (map f l) → NoDup (map f (filter P l)).
Proof.
  induction l as [|x l IH]; [done|]. simpl. intros [Hx Hl]%NoDup_cons.
  rewrite filter_cons. destruct (decide (P x)); [|by apply IH].
  simpl. apply NoDup_cons. split; [|by apply IH].
  intros (y & Hy & [_ Hin]%list_elem_of_filter)%list_elem_of_fmap.
  apply Hx. rewrite Hy. by apply list_elem_of_fmap_2.
Qed.

(** The loop of the sibling script over a datastore that does not fail:
    the destination gains the transformed rows after the cursor whose id it
    did not hold, and nothing else changes. *)
Lemma prefilter_loop_clean_content fuel : ∀ st w,
  faults w = [] →
  NoDup (map Src.id (source w)) →
  Forall well_typed (source w) →
  Forall (λ x, 0 < Src.id x) (source w) →
  0 ≤ lastId st →
  (length (pending (lastId st) (source w)) < fuel)%nat →
  ∃ st' w' ds,
    loop (Prefilter.iteration tz) fuel st w = (Ret st', w')
    ∧ map_transformRow tz (pending (lastId st) (source w)) = Ok ds
    ∧ dest w'
      = upsert_rows (filter (λ d, dest w !! Dest.id d = None) ds) (dest w)
    ∧ source w' = source w
    ∧ faults w' = []
    ∧ totalErrors st' = totalErrors st.
Proof.
  induction fuel as [|fuel IH]; intros st w Hf Hnd Hwt Hpos Hc Hfuel; [lia|].
  simpl loop.
  destruct (pending (lastId st) (source w)) as [|p ps] eqn:Hp.
  - rewrite (bind_Ret _ _ _ _ _
               (prefilter_iteration_clean_empty tz st w Hf Hc Hpos Hp)).
    eexists st, _, []. split; [reflexivity|]. repeat split; done.
  - set (rows := take BATCH_SIZE (p :: ps)).
    destruct (last_is_Some rows) as [_ [r Hr]].
    { unfold rows, BATCH_SIZE. done. }
    assert (rows ⊆ pending (lastId st) (source w)) as Hsub.
    { rewrite Hp. apply subseteq_take. }
    destruct (map_transformRow_returns tz rows) as [ds1 Hds1].
    { apply Forall_forall. intros x Hx%Hsub.
      apply elem_of_pending in Hx as [_ Hx].
      by apply (proj1 (Forall_forall _ _) Hwt). }
    destruct (prefilter_iteration_clean tz st w rows ds1 r)
      as (st1 & w1 & Hit & Hid & He1 & Hf1 & Hs1 & Hd1 & _); try done.
    { by rewrite Hp. }
    rewrite (bind_Ret _ _ _ _ _ Hit).
    assert (r ∈ pending (lastId st) (source w)) as Hrp.
    { apply Hsub. by apply last_Some_elem_of. }
    assert (pending (lastId st1) (source w1) = drop BATCH_SIZE (p :: ps))
      as Hnext.
    { rewrite Hid, Hs1, <- Hp. apply pending_next; [done|]. by rewrite Hp. }
    destruct (IH st1 w1)
      as (st' & w' & ds2 & Hrun & Hds2 & Hd' & Hs' & Hf' & He');
      try (by rewrite ?Hs1).
    { rewrite Hid. apply elem_of_pending in Hrp as [? _]. lia. }
    { rewrite Hnext, length_drop. cbn [length] in *. unfold BATCH_SIZE. lia. }
    rewrite Hnext in Hds2.
    exists st', w', (ds1 ++ ds2). split; [done|]. split.
    { rewrite <- (take_drop BATCH_SIZE (p :: ps)).
      by apply map_transformRow_app. }
    split; [|split; [congruence|split; [done|congruence]]].
    rewrite Hd', filter_app, upsert_rows_app, <- Hd1. f_equal.
    apply filter_ext_in. intros d Hd.
    rewrite Hd1, upsert_rows_frame; [done|].
    intros (d1 & Hid1 & [_ Hin1]%list_elem_of_filter)%list_elem_of_fmap.
    pose proof (pending_NoDup (lastId st) (source w) Hnd) as Hnd'.
    rewrite Hp, <- (take_drop BATCH_SIZE (p :: ps)), fmap_app in Hnd'.
    apply NoDup_app in Hnd' as (_ & Hdisj & _).
    apply (Hdisj (Dest.id d)).
    + change (Dest.id d ∈ map Src.id rows).
      rewrite <- (map_transformRow_ids tz rows ds1 Hds1), Hid1.
      by apply list_elem_of_fmap_2.
    + change (Dest.id d ∈ map Src.id (drop BATCH_SIZE (p :: ps))).
      rewrite <- (map_transformRow_ids tz _ ds2 Hds2).
      by apply list_elem_of_fmap_2.
Qed.

End SiblingWrites.

(** X13.  The sibling script over a datastore that does not fail, a source
    with a primary key of positive ids and typed rows: the run exits with
    status 0; an id the destination held keeps its row as it was; a source
    row whose id the destination did not hold is there as [transformRow]
    makes it; no other id appears. *)
Theorem prefilter_run_inserts_new_only tz fuel w :
  faults w = [] →
  NoDup (map Src.id (source w)) →
  Forall well_typed (source w) →
  Forall (λ x, 0 < Src.id x) (source w) →
  (length (source w) < fuel)%nat →
  ∃ w1,
    Prefilter.run tz fuel w = (Exit 0, w1)
    ∧ (∀ k d0, dest w !! k = Some d0 → dest w1 !! k = Some d0)
    ∧ (∀ r, r ∈ source w → dest w !! Src.id r = None →
         ∃ d, transformRow tz r = Ok d ∧ dest w1 !! Src.id r = Some d)
    ∧ (∀ k, dest w !! k = None → (∀ r, r ∈ source w → Src.id r ≠ k) →
         dest w1 !! k = None).
Proof.
  intros Hf Hnd Hwt Hpos Hfuel.
  destruct (prefilter_loop_clean_content tz fuel initial
              (called EvCountDest [] (called EvCountSource [] w)))
    as (st' & w' & ds & Hloop & Hds & Hd & Hs & Hf' & He); try done.
  { simpl. pose proof (pending_length 0 (source w)). lia. }
  simpl in Hds, Hd.
  set (new := filter (λ d, dest w !! Dest.id d = None) ds) in *.
  exists (called EvCountDest [] w'). split.
  { unfold Prefilter.run. by apply (run_clean _ fuel w st' w'). }
  simpl dest. rewrite Hd.
  pose proof (map_transformRow_ids tz _ ds Hds) as Hids.
  split; [|split].
  - intros k d0 Hk. rewrite upsert_rows_frame; [done|].
    intros (d & Hid & [Hnone _]%list_elem_of_filter)%list_elem_of_fmap.
    rewrite <- Hid in Hnone. congruence.
  - intros r Hr Hnone.
    assert (r ∈ pending 0 (source w)) as Hrp.
    { apply elem_of_pending. split; [|done].
      by apply (proj1 (Forall_forall _ _) Hpos). }
    destruct (upsert_rows_transformed tz _ ds ∅ r Hds
                (pending_NoDup 0 _ Hnd) Hrp) as (d & Htr & _).
    exists d. split; [done|].
    pose proof (transformRow_inv tz r d Htr) as (_ & _ & Hid & _).
    assert (d ∈ ds) as Hin.
    { apply map_transformRow_Forall2 in Hds.
      clear -Hds Hrp Htr. induction Hds as [|x y l k Hxy _ IH].
      - by apply not_elem_of_nil in Hrp.
      - apply elem_of_cons in Hrp as [-> | Hrp].
        + rewrite Htr in Hxy. injection Hxy as ->. by left.
        + right. by apply IH. }
    rewrite <- Hid. apply upsert_rows_NoDup_lookup.
    + apply NoDup_fmap_filter. rewrite Hids. by apply pending_NoDup.
    + apply list_elem_of_filter. split; [|done]. by rewrite Hid.
  - intros k Hnone Hk. rewrite upsert_rows_frame; [done|].
    intros (d & Hid & [_ Hin]%list_elem_of_filter)%list_elem_of_fmap.
    assert (k ∈ map Src.id (pending 0 (source w))) as Hkin.
    { rewrite <- Hids, Hid. by apply list_elem_of_fmap_2. }
    apply list_elem_of_fmap in Hkin as (r & -> & [_ Hr]%elem_of_pending).
    by apply (Hk r).
Qed.

Lemma prefilter_run_inserts_new_only_witness :
  ∃ w1,
    Prefilter.run 0 2
      {| source := [plain_row 2]; dest := {[ 2 := synced_row 2 true ]};
         faults := []; log := [] |}
    = (Exit 0, w1)
    ∧ dest w1 !! 2 = Some (synced_row 2 true).
Proof.
  destruct (prefilter_run_inserts_new_only 0 2
              {| source := [plain_row 2];
                 dest := {[ 2 := synced_row 2 true ]};
                 faults := []; log := [] |})
    as (w1 & Hrun & Hkeep & _).
  - reflexivity.
  - apply (bool_decide_unpack _). vm_compute. reflexivity.
  - apply Forall_cons_2; [right; eexists; reflexivity | apply Forall_nil_2].
  - apply Forall_cons_2; [reflexivity | apply Forall_nil_2].
  - simpl. lia.
  - exists w1. split; [assumption|]. apply Hkeep. reflexivity.
Defined.

(** ** The retry loop for any number of attempts *)

Section RetryAnyBound.

Lemma try_catch_Ret {A} (m : M A) (h : js_error → M A) w a w' :
  m w = (Ret a, w') → try_catch m h w = (Ret a, w').
Proof. intros H. unfold try_catch. by rewrite H. Qed.

Lemma try_catch_Raise {A} (m : M A) (h : js_error → M A) w e w' :
  m w = (Raise e, w') → try_catch m h w = h e w'.
Proof. intros H. unfold try_catch. by rewrite H. Qed.

Lemma retry_log_snoc data n :
  (1 ≤ n)%nat →
  retry_log data n ++ [EvSleep Prefilter.RETRY_DELAY; EvUpsert data]
  = retry_log data (S n).
Proof.
  induction n as [|[|n] IH]; intros Hn; [lia | done |].
  change (retry_log data (S (S n)))
    with (EvUpsert data :: EvSleep Prefilter.RETRY_DELAY
          :: retry_log data (S n)).
  rewrite <- !app_comm_cons, IH by lia. reflexivity.
Qed.

Lemma drop_tail {A} (n : nat) (l : list A) : drop n (tail l) = drop (S n) l.
Proof. destruct l; simpl; [by rewrite drop_nil | done]. Qed.

(** The [for] loop from [attempt] on, with the turns the bound leaves. *)
Lemma retry_from_spec data maxRetries remaining : ∀ attempt w,
  attempt + Z.of_nat remaining = maxRetries + 1 →
  (0 < remaining)%nat →
  ∃ res w' n,
    Prefilter.retry_from data maxRetries remaining attempt w
    = (Ret (Some res), w')
    ∧ (1 ≤ n ≤ remaining)%nat
    ∧ log w' = retry_log data n ++ log w
    ∧ faults w' = drop n (faults w)
    ∧ source w' = source w
    ∧ (Prefilter.success res = true
       ∧ Prefilter.retry_error res = None
       ∧ dest w' = upsert_rows data (dest w)
       ∨ Prefilter.success res = false
         ∧ is_Some (Prefilter.retry_error res)
         ∧ dest w' = dest w
         ∧ n = remaining).
Proof.
  induction remaining as [|k IH]; intros attempt w Hatt Hpos; [lia|].
  simpl Prefilter.retry_from.
  assert (∀ w1,
            source w1 = source w → dest w1 = dest w →
            faults w1 = drop 1 (faults w) →
            log w1 = EvUpsert data :: log w →
            (attempt <? maxRetries) = true →
            ∃ res w' n,
              Prefilter.retry_from data maxRetries k (attempt + 1)
                (record (EvSleep Prefilter.RETRY_DELAY) w1)
              = (Ret (Some res), w')
              ∧ (1 ≤ n ≤ S k)%nat
              ∧ log w' = retry_log data n ++ log w
              ∧ faults w' = drop n (faults w)
              ∧ source w' = source w
              ∧ (Prefilter.success res = true
                 ∧ Prefilter.retry_error res = None
                 ∧ dest w' = upsert_rows data (dest w)
                 ∨ Prefilter.success res = false
                   ∧ is_Some (Prefilter.retry_error res)
                   ∧ dest w' = dest w
                   ∧ n = S k)) as Hnext.
  { intros w1 Hs1 Hd1 Hf1 Hl1 Hlt. apply Z.ltb_lt in Hlt.
    destruct (IH (attempt + 1) (record (EvSleep Prefilter.RETRY_DELAY) w1))
      as (res & w' & n & Hrun & Hn & Hlog & Hfs & Hsrc & Hres); [lia | lia |].
    exists res, w', (S n). split; [done|]. split; [lia|].
    simpl in Hlog, Hfs, Hsrc. split.
    { rewrite Hlog, Hl1, <- retry_log_snoc by lia.
      by rewrite <- app_assoc. }
    split; [by rewrite Hfs, Hf1, drop_drop|]. split; [congruence|].
    destruct Hres as [(? & ? & Hd)|(? & ? & Hd & ->)]; [left | right];
      simpl in Hd; rewrite Hd, ?Hd1; done. }
  set (w1 := called (EvUpsert data) (tail (faults w)) w).
  set (turn := try_catch _ _).
  assert (k = 0%nat → ∀ e,
            turn w = (Ret (Prefilter.Return
                             {| Prefilter.success := false;
                                Prefilter.retry_error := Some e |}), w1) →
            ∃ res w' n,
              bind turn
                (λ e0, match e0 with
                       | Prefilter.Return r => ret (Some r)
                       | Prefilter.NextAttempt =>
                           Prefilter.retry_from data maxRetries k (attempt + 1)
                       end) w = (Ret (Some res), w')
              ∧ (1 ≤ n ≤ S k)%nat
              ∧ log w' = retry_log data n ++ log w
              ∧ faults w' = drop n (faults w)
              ∧ source w' = source w
              ∧ (Prefilter.success res = true
                 ∧ Prefilter.retry_error res = None
                 ∧ dest w' = upsert_rows data (dest w)
                 ∨ Prefilter.success res = false
                   ∧ is_Some (Prefilter.retry_error res)
                   ∧ dest w' = dest w
                   ∧ n = S k)) as Hlast.
  { intros -> e Hturn. rewrite (bind_Ret _ _ _ _ _ Hturn).
    eexists _, _, 1%nat. split; [reflexivity|]. simpl.
    split; [lia|]. split; [done|]. split; [by destruct (faults w)|].
    split; [done|]. right. eauto. }
  assert (faults w1 = drop 1 (faults w)) as Hf1 by (by destruct (faults w)).
  destruct (upsert_cases data w) as [Hu|[[e Hu]|[e Hu]]].
  - unfold turn.
    rewrite (bind_Ret _ _ _ _ _
               (try_catch_Ret _ _ _ _ _ (bind_Ret _ _ _ _ _ Hu))).
    eexists _, _, 1%nat. split; [reflexivity|]. simpl.
    split; [lia|]. split; [done|]. split; [by destruct (faults w)|].
    split; [done|]. by left.
  - destruct (decide (attempt < maxRetries)) as [Hlt|Hge].
    + assert ((attempt <? maxRetries) = true) as Hb by (by apply Z.ltb_lt).
      assert (turn w = (Ret Prefilter.NextAttempt,
                        record (EvSleep Prefilter.RETRY_DELAY) w1)) as Hturn.
      { unfold turn. apply try_catch_Ret. rewrite (bind_Ret _ _ _ _ _ Hu).
        cbn [error]. by rewrite Hb. }
      rewrite (bind_Ret _ _ _ _ _ Hturn). by apply Hnext.
    + assert (attempt = maxRetries ∧ k = 0%nat) as [Heq Hk] by lia.
      apply (Hlast Hk e). unfold turn. eapply eq_trans.
      * apply (try_catch_Raise _ _ w e w1).
        rewrite (bind_Ret _ _ _ _ _ Hu). cbn [error].
        assert ((attempt <? maxRetries) = false) as -> by (apply Z.ltb_ge; lia).
        reflexivity.
      * assert ((attempt =? maxRetries) = true) as -> by (by apply Z.eqb_eq).
        reflexivity.
  - destruct (decide (attempt = maxRetries)) as [Heq|Hne].
    + assert (k = 0%nat) as Hk by lia.
      apply (Hlast Hk e). unfold turn. eapply eq_trans.
      * apply (try_catch_Raise _ _ w e w1).
        by rewrite (bind_Raise _ _ _ _ _ Hu).
      * assert ((attempt =? maxRetries) = true) as -> by (by apply Z.eqb_eq).
        reflexivity.
    + assert ((attempt <? maxRetries) = true) as Hb by (apply Z.ltb_lt; lia).
      assert (turn w = (Ret Prefilter.NextAttempt,
                        record (EvSleep Prefilter.RETRY_DELAY) w1)) as Hturn.
      { unfold turn. eapply eq_trans.
        - apply (try_catch_Raise _ _ w e w1).
          by rewrite (bind_Raise _ _ _ _ _ Hu).
        - assert ((attempt =? maxRetries) = false) as ->
            by (by apply Z.eqb_neq).
          reflexivity. }
      rewrite (bind_Ret _ _ _ _ _ Hturn). by apply Hnext.
Qed.

End RetryAnyBound.

(** X14.  [upsertWithRetry] with any bound.  With [maxRetries] below 1 it
    calls nothing and returns undefined.  With [maxRetries] at least 1 it
    never throws: it returns after at most [maxRetries] attempts with a
    pause of 1000 ms between two of them, with the batch written once on
    success, or with the table untouched and the last error after exactly
    [maxRetries] failed attempts. *)
Theorem upsertWithRetry_any_bound data maxRetries w :
  (maxRetries < 1 →
   Prefilter.upsertWithRetry data maxRetries w = (Ret None, w))
  ∧ (1 ≤ maxRetries →
     ∃ res w' n,
       Prefilter.upsertWithRetry data maxRetries w = (Ret (Some res), w')
       ∧ (1 ≤ n ≤ Z.to_nat maxRetries)%nat
       ∧ log w' = retry_log data n ++ log w
       ∧ (Prefilter.success res = true
          ∧ Prefilter.retry_error res = None
          ∧ dest w' = upsert_rows data (dest w)
          ∨ Prefilter.success res = false
            ∧ is_Some (Prefilter.retry_error res)
            ∧ dest w' = dest w
            ∧ n = Z.to_nat maxRetries)).
Proof.
  unfold Prefilter.upsertWithRetry. split.
  - intros Hlt. replace (Z.to_nat maxRetries) with 0%nat by lia. reflexivity.
  - intros Hge.
    destruct (retry_from_spec data maxRetries (Z.to_nat maxRetries) 1 w)
      as (res & w' & n & Hrun & Hn & Hlog & _ & _ & Hres); [lia | lia |].
    exists res, w', n. done.
Qed.

Lemma upsertWithRetry_any_bound_witness :
  Prefilter.upsertWithRetry [synced_row 2 false] 0 resynced_world
  = (Ret None, resynced_world).
Proof.
  destruct (upsertWithRetry_any_bound [synced_row 2 false] 0 resynced_world)
    as [H _].
  apply H. lia.
Defined.

(** ** The duration field *)

Section Duration.








Lemma is_digit_code c : is_digit c = true ↔ 48 ≤ code c ≤ 57.
Proof. unfold is_digit. rewrite andb_true_iff, !Z.leb_le. done. Qed.


(** A digit is no white space and no sign, so [parseInt] reads the group
    from its first character. *)
Lemma parseInt_str_digit c s :
  is_digit c = true →
  parseInt_str (String c s) = read_digits None (String c s).
Proof.
  intros Hc. unfold parseInt_str. cbn [skip_space].
  assert (is_space c = false) as ->.
  { apply is_digit_code in Hc. unfold is_space.
    assert ((code c <=? 13) = false) as -> by (apply Z.leb_gt; lia).
    assert ((code c =? 32) = false) as -> by (apply Z.eqb_neq; lia).
    by rewrite andb_false_r. }
  destruct c as [[] [] [] [] [] [] [] []];
    try (vm_compute in Hc; discriminate Hc); reflexivity.
Qed.



End Duration.



(** ** The integer fields *)

Section IntegerFields.

Lemma digit_val_of_mod (n : Z) :
  digit_val (ascii_of_nat (Z.to_nat (48 + n mod 10))) = n mod 10.
Proof.
  pose proof (Z.mod_pos_bound n 10 ltac:(lia)) as Hm.
  unfold digit_val, code. rewrite nat_ascii_embedding by lia.
  rewrite Z2Nat.id by lia. lia.
Qed.

(** Reading back the digits [digits_aux] wrote in front of [acc]. *)
Lemma read_digits_digits_aux fuel : ∀ n acc acc0,
  0 ≤ n < 10 ^ Z.of_nat fuel → (0 < fuel)%nat →
  ∃ k, 0 ≤ k
       ∧ read_digits acc0 (digits_aux fuel n acc)
         = read_digits (Some (default 0 acc0 * 10 ^ k + n)) acc.
Proof.
  induction fuel as [|f IH]; intros n acc acc0 Hn Hf; [lia|].
  rewrite Nat2Z.inj_succ, Z.pow_succ_r in Hn by lia.
  cbn [digits_aux]. cbv zeta.
  pose proof (Z.div_mod n 10 ltac:(lia)) as Hdm.
  pose proof (Z.mod_pos_bound n 10 ltac:(lia)) as Hm.
  destruct (n / 10 =? 0) eqn:E.
  - apply Z.eqb_eq in E. exists 1. split; [lia|].
    cbn [read_digits]. rewrite is_digit_of_mod, digit_val_of_mod.
    f_equal. f_equal. change (10 ^ 1) with 10. lia.
  - apply Z.eqb_neq in E.
    assert (0 ≤ n / 10 < 10 ^ Z.of_nat f) as Hq.
    { split; [apply Z.div_pos; lia|].
      apply Z.div_lt_upper_bound; lia. }
    assert (0 < f)%nat as Hf'.
    { destruct f; [|lia]. simpl in Hq. lia. }
    destruct (IH (n / 10)
                (String (ascii_of_nat (Z.to_nat (48 + n mod 10))) acc)
                acc0 Hq Hf') as (k & Hk & ->).
    exists (Z.succ k). split; [lia|].
    cbn [read_digits]. rewrite is_digit_of_mod, digit_val_of_mod.
    f_equal. f_equal. rewrite Z.pow_succ_r by done.
    assert (∀ a b c d, 10 * (a * b + c) + d = a * (10 * b) + (10 * c + d))
      as Hr by (intros; ring).
    match goal with
    | |- context [default 0 (Some ?y)] => change (default 0 (Some y)) with y
    end.
    rewrite Hr. by rewrite <- Hdm.
Qed.

Lemma decimal_fuel (n : Z) :
  0 ≤ n → n < 10 ^ Z.of_nat (S (Z.to_nat (Z.log2 n))).
Proof.
  intros Hn. pose proof (Z.log2_nonneg n) as Hl.
  rewrite Nat2Z.inj_succ, Z2Nat.id by done.
  destruct (decide (n = 0)) as [->|Hne]; [done|].
  destruct (Z.log2_spec n ltac:(lia)) as [_ Hlt].
  eapply Z.lt_le_trans; [exact Hlt|].
  apply Z.pow_le_mono_l. lia.
Qed.

Lemma read_digits_decimal (n : Z) :
  0 ≤ n → read_digits None (decimal n) = Some n.
Proof.
  intros Hn. unfold decimal.
  destruct (read_digits_digits_aux (S (Z.to_nat (Z.log2 n))) n EmptyString None)
    as (k & Hk & ->); [split; [done | by apply decimal_fuel] | lia |].
  reflexivity.
Qed.

Lemma digits_aux_nonempty fuel : ∀ n acc,
  (0 < fuel)%nat ∨ acc ≠ EmptyString →
  digits_aux fuel n acc ≠ EmptyString.
Proof.
  induction fuel as [|f IH]; intros n acc H; cbn [digits_aux].
  - destruct H; [lia | done].
  - cbv zeta. destruct (n / 10 =? 0); [done|]. apply IH. by right.
Qed.

(** [parseInt] of the digits of a natural number. *)
Lemma parseInt_str_decimal (n : Z) :
  0 ≤ n → parseInt_str (decimal n) = Some n.
Proof.
  intros Hn. rewrite <- (read_digits_decimal n Hn).
  pose proof (digits_aux_all_digits (S (Z.to_nat (Z.log2 n))) n EmptyString
                eq_refl) as Hd.
  pose proof (digits_aux_nonempty (S (Z.to_nat (Z.log2 n))) n EmptyString
                ltac:(left; lia)) as Hne.
  fold (decimal n) in Hd, Hne.
  destruct (decimal n) as [|c s]; [done|].
  cbn [all_digits] in Hd. apply andb_true_iff in Hd as [Hc _].
  by apply parseInt_str_digit.
Qed.

(** [parseInt] of a Number, and of the text JavaScript prints for it. *)
Lemma parseInt_to_string (n : Z) :
  parseInt (VNum n) = Some n
  ∧ parseInt (VStr (to_string (VNum n))) = Some n
  ∧ to_string (VNum n) ≠ EmptyString.
Proof.
  unfold parseInt. cbn [to_string].
  destruct (n <? 0) eqn:E.
  - apply Z.ltb_lt in E.
    assert (parseInt_str (String "-" (decimal (- n))) = Some n) as H.
    { change (parseInt_str (String "-" (decimal (- n))))
        with (Z.opp <$> read_digits None (decimal (- n))).
      rewrite read_digits_decimal by lia. simpl. f_equal. lia. }
    done.
  - apply Z.ltb_ge in E. rewrite parseInt_str_decimal by done.
    split; [done|]. split; [done|].
    apply digits_aux_nonempty. left. lia.
Qed.

Lemma int_or_null_integer (n : Z) (v : value) :
  n ≠ 0 → v = VNum n ∨ v = VStr (to_string (VNum n)) →
  int_or_null v = Some n.
Proof.
  intros Hn Hv. apply int_or_null_Some.
  destruct (parseInt_to_string n) as (H1 & H2 & H3).
  destruct Hv as [-> | ->].
  - split; [|done]. cbn [truthy]. apply negb_true_iff. by apply Z.eqb_neq.
  - split; [|done]. cbn [truthy]. by destruct (to_string (VNum n)).
Qed.

End IntegerFields.

(** X16.  The three integer fields keep an integer: when [ad_id],
    [ad_risk_level] or [request_id] of the source row is an integer that is
    not zero, given as a Number or as the text JavaScript prints for it,
    the transformed row holds that integer.  The bound is the range in
    which a Number and its decimal digits are the same integer. *)
Theorem integer_fields_keep_value (tz : Z) (row : Src.row) (d : Dest.row)
    (n : Z) :
  transformRow tz row = Ok d →
  n ≠ 0 → - 2 ^ 53 < n < 2 ^ 53 →
  (Src.ad_id row = VNum n ∨ Src.ad_id row = VStr (to_string (VNum n)) →
   Dest.ad_id d = Some n)
  ∧ (Src.ad_risk_level row = VNum n
     ∨ Src.ad_risk_level row = VStr (to_string (VNum n)) →
     Dest.ad_risk_level d = Some n)
  ∧ (Src.request_id row = VNum n
     ∨ Src.request_id row = VStr (to_string (VNum n)) →
     Dest.request_id d = Some n).
Proof.
  intros H Hn _.
  destruct (transformRow_inv tz row d H)
    as (p & _ & _ & -> & -> & -> & _).
  split; [|split]; by apply int_or_null_integer.
Qed.

Lemma integer_fields_keep_value_witness :
  transformRow 0 (plain_row 1) = Ok (synced_row 1 false)
  ∧ Src.ad_id (plain_row 1) = VStr (to_string (VNum 120))
  ∧ Dest.ad_id (synced_row 1 false) = Some 120.
Proof.
  assert (transformRow 0 (plain_row 1) = Ok (synced_row 1 false)) as H
    by (vm_compute; reflexivity).
  split; [exact H|]. split; [reflexivity|].
  apply (proj1 (integer_fields_keep_value 0 _ _ 120 H
                  ltac:(done) ltac:(done))).
  by right.
Defined.

(** ** The sibling script comes to an end when the ids are positive *)

Section SiblingProgress.

Variable tz : Z.

Lemma prefilter_iteration_throws st w rows e :
  hd NoFault (faults w) = NoFault →
  page (Prefilter.after st) BATCH_SIZE (source w) = rows →
  map_transformRow tz rows = Throws e →
  Prefilter.iteration tz st w
  = (Raise e, called (EvFetch (Prefilter.after st)) (tail (faults w)) w).
Proof.
  intros Hf Hpage Hds. unfold Prefilter.iteration, select_source.
  unfold bind at 1. rewrite call_ok by done. simpl.
  rewrite Hpage. destruct rows as [|r rows]; [discriminate Hds|].
  unfold bind at 1. unfold lift. rewrite Hds. reflexivity.
Qed.

Lemma write_new_progress rows newRecords st w r :
  last rows = Some r →
  ∃ st' w',
    Prefilter.write_new rows newRecords st w = (Ret (Continue st'), w')
    ∧ lastId st' = Src.id r
    ∧ source w' = source w
    ∧ (length (faults w') ≤ length (faults w))%nat.
Proof.
  intros Hlast. destruct (decide (newRecords = [])) as [->|Hne].
  - unfold Prefilter.write_new, bind, advance. rewrite Hlast.
    eexists _, _. split; [reflexivity|]. done.
  - destruct (write_new_continues rows newRecords st w r Hne Hlast)
      as (res & w' & n & _ & Hw & _ & _ & Hfs & Hsrc & _).
    eexists _, w'. split; [exact Hw|]. split; [done|]. split; [done|].
    rewrite Hfs, length_drop. lia.
Qed.

(** One turn of the sibling script on positive ids, whatever the datastore
    does: a turn that ends with [continue] either used up a failure or
    moved the cursor past a row. *)
Lemma prefilter_iteration_progress st w o w' :
  0 ≤ lastId st → Forall (λ r, 0 < Src.id r) (source w) →
  Prefilter.iteration tz st w = (o, w') →
  source w' = source w
  ∧ o ≠ OutOfFuel
  ∧ (∀ c, o = Exit c → c = 1)
  ∧ (length (faults w') ≤ length (faults w))%nat
  ∧ ∀ st', o = Ret (Continue st') →
      0 ≤ lastId st' ∧ (work_left st' w' < work_left st w)%nat.
Proof.
  intros Hc Hpos Hit.
  assert (hd NoFault (faults w) = NoFault
          ∨ (∃ e rest, faults w = ErrorPayload e :: rest)
          ∨ (∃ e rest, faults w = Rejects e :: rest))
    as [Hhd|[(e & rest & Hfs)|(e & rest & Hfs)]]
    by (destruct (faults w) as [|[|e|e] rest]; eauto).
  2-3: rewrite Hfs.
  2:{ idtac.
      - rewrite (prefilter_iteration_fetch_error tz st w e rest Hfs) in Hit.
        destruct (Prefilter.is_connection_error e);
          injection Hit as <- <-; simpl.
        + do 3 (split; [done|]). split; [lia|].
          intros st' [= <-]. split; [done|].
          unfold work_left. simpl. rewrite Hfs. simpl. lia.
        + split; [done|]. split; [done|]. split; [by intros c [= <-]|].
          split; [lia | done]. }
  2:{ rewrite (prefilter_iteration_fetch_rejects tz st w e rest Hfs) in Hit.
      injection Hit as <- <-. simpl.
      do 3 (split; [done|]). split; [lia | done]. }
  set (rows := page (Prefilter.after st) BATCH_SIZE (source w)).
  set (w1 := called (EvFetch (Prefilter.after st)) (tail (faults w)) w).
  assert (length (faults w1) ≤ length (faults w))%nat as Hl1.
  { simpl. destruct (faults w); simpl; lia. }
  destruct (map_transformRow tz rows) as [ds|e] eqn:Hds.
  2:{ rewrite (prefilter_iteration_throws st w rows e) in Hit by done.
      injection Hit as <- <-. do 3 (split; [done|]). split; [exact Hl1 | done]. }
  destruct (decide (rows = [])) as [Hnil|Hne].
  { rewrite prefilter_iteration_empty in Hit by done.
    injection Hit as <- <-. do 3 (split; [done|]). split; [exact Hl1 | done]. }
  rewrite (prefilter_iteration_fetched tz st w rows ds) in Hit by done.
  fold w1 in Hit.
  destruct (last_is_Some rows) as [_ [r Hr]]; [done|].
  assert (length (pending (Src.id r) (source w))
          < length (pending (lastId st) (source w)))%nat as Hshrink.
  { apply pending_shrinks_strictly.
    unfold rows in Hr. rewrite prefilter_page in Hr by done.
    eapply subseteq_take, last_Some_elem_of, Hr. }
  assert (lastId st < Src.id r) as Hup.
  { unfold rows in Hr. rewrite prefilter_page in Hr by done.
    assert (r ∈ pending (lastId st) (source w)) as Hin
      by (eapply subseteq_take, last_Some_elem_of, Hr).
    by apply elem_of_pending in Hin as [? _]. }
  assert (∀ existing w2,
            source w2 = source w →
            (length (faults w2) ≤ length (faults w1))%nat →
            Prefilter.write_new rows (Prefilter.new_records existing ds) st w2
            = (o, w') →
            source w' = source w
            ∧ o ≠ OutOfFuel
            ∧ (∀ c, o = Exit c → c = 1)
            ∧ (length (faults w') ≤ length (faults w))%nat
            ∧ ∀ st', o = Ret (Continue st') →
                0 ≤ lastId st' ∧ (work_left st' w' < work_left st w)%nat)
    as Hwrite.
  { intros existing w2 Hs2 Hl2 Hw.
    destruct (write_new_progress rows (Prefilter.new_records existing ds)
                st w2 r Hr) as (st2 & w3 & Hw3 & Hid & Hs3 & Hl3).
    rewrite Hw3 in Hw. injection Hw as <- <-.
    split; [congruence|]. do 2 (split; [done|]). split; [lia|].
    intros st' [= <-]. split; [lia|].
    unfold work_left. rewrite Hid, Hs3, Hs2. lia. }
  assert (source w1 = source w) as Hs1 by done.
  clearbody w1.
  destruct (faults w1) as [|[|e|e] rest1] eqn:Hf1.
  - rewrite (bind_Ret _ _ _ _ _
               (check_existing_ok _ st w1 ltac:(by rewrite Hf1))) in Hit.
    apply Hwrite in Hit; [done | done | by rewrite Hf1].
  - rewrite (bind_Ret _ _ _ _ _
               (check_existing_ok _ st w1 ltac:(by rewrite Hf1))) in Hit.
    apply Hwrite in Hit; [done | done | rewrite Hf1; simpl; lia].
  - rewrite (bind_Ret _ _ _ _ _
               (check_existing_error_payload _ st w1 e rest1 Hf1)) in Hit.
    apply Hwrite in Hit; [done | done | simpl; lia].
  - pose proof (check_existing_rejects (map Src.id rows) st w1 e rest1 Hf1)
      as Hchk.
    destruct (Prefilter.is_connection_error e).
    + rewrite (bind_Ret _ _ _ _ _ Hchk) in Hit. injection Hit as <- <-.
      simpl in Hl1 |- *. do 3 (split; [done|]). split; [lia|].
      intros st' [= <-]. split; [done|].
      unfold work_left. simpl. rewrite Hs1. lia.
    + rewrite (bind_Exit _ _ _ _ _ Hchk) in Hit. injection Hit as <- <-.
      simpl in Hl1 |- *. split; [done|]. split; [done|].
      split; [by intros c [= <-]|]. split; [lia | done].
Qed.

Lemma prefilter_loop_terminates fuel : ∀ st w,
  0 ≤ lastId st → Forall (λ r, 0 < Src.id r) (source w) →
  (work_left st w < fuel)%nat →
  ∃ o w',
    loop (Prefilter.iteration tz) fuel st w = (o, w')
    ∧ o ≠ OutOfFuel
    ∧ (∀ c, o = Exit c → c = 1)
    ∧ source w' = source w.
Proof.
  induction fuel as [|fuel IH]; intros st w Hc Hpos Hfuel; [lia|].
  simpl loop.
  destruct (Prefilter.iteration tz st w) as [o w1] eqn:Hit.
  destruct (prefilter_iteration_progress st w o w1 Hc Hpos Hit)
    as (Hs & Hof & Hex & _ & Hco).
  destruct o as [[st1|st1]|e|c|].
  - destruct (Hco st1 eq_refl) as [Hc1 Hless].
    destruct (IH st1 w1 Hc1 ltac:(by rewrite Hs) ltac:(lia))
      as (o & w' & Hrun & ? & ? & Hs').
    exists o, w'. rewrite (bind_Ret _ _ _ _ _ Hit).
    split; [done|]. do 2 (split; [done|]). congruence.
  - exists (Ret st1), w1. rewrite (bind_Ret _ _ _ _ _ Hit).
    split; [done|]. split; [done|]. split; [by intros c [=] | done].
  - exists (Raise e), w1. rewrite (bind_Raise _ _ _ _ _ Hit).
    split; [done|]. split; [done|]. split; [by intros c [=] | done].
  - exists (Exit c), w1. rewrite (bind_Exit _ _ _ _ _ Hit).
    split; [done|]. split; [done|]. split; [|done].
    intros c' [= <-]. by apply Hex.
  - done.
Qed.

End SiblingProgress.

(** X17.  With positive ids the sibling script comes to an end, whatever
    the rows hold and whichever calls fail, as long as the datastore fails
    finitely often: every turn that is repeated uses up one failure, every
    other turn moves the cursor past a row, so with fuel above the number
    of rows plus the number of failures the process exits, with status 0 or
    1, the source untouched. *)
Theorem prefilter_script_exits_on_positive_ids tz w fuel :
  Forall (λ r, 0 < Src.id r) (source w) →
  (length (source w) + length (faults w) < fuel)%nat →
  ∃ c w',
    Prefilter.run tz fuel w = (Exit c, w')
    ∧ (c = 0 ∨ c = 1)
    ∧ source w' = source w.
Proof.
  intros Hpos Hfuel. unfold Prefilter.run, run, try_catch, main.
  destruct (count_source_cases w) as [H|[[e H]|[e H]]].
  2:{ rewrite (bind_Ret _ _ _ _ _ H). cbn [error].
      eexists _, _. split; [reflexivity|]. simpl. by split; [right|]. }
  2:{ rewrite (bind_Raise _ _ _ _ _ H).
      eexists _, _. split; [reflexivity|]. simpl. by split; [right|]. }
  rewrite (bind_Ret _ _ _ _ _ H). cbn [error].
  set (w1 := called EvCountSource (tail (faults w)) w).
  destruct (count_dest_world w1) as (o1 & Hc1 & Hex1 & Hof1).
  set (w2 := called EvCountDest (tail (faults w1)) w1) in *.
  destruct o1 as [a|e|c|]; [| |by destruct (Hex1 c)|done].
  2:{ rewrite (bind_Raise _ _ _ _ _ Hc1).
      eexists _, _. split; [reflexivity|]. simpl. by split; [right|]. }
  rewrite (bind_Ret _ _ _ _ _ Hc1).
  destruct (prefilter_loop_terminates tz fuel initial w2)
    as (o & w3 & Hrun & Hof & Hex & Hs); [done | done | |].
  { unfold work_left. simpl.
    pose proof (pending_length 0 (source w)).
    destruct (faults w) as [|f1 [|f2 fs]]; simpl in *; lia. }
  destruct o as [st'|e|c|]; [| | |done].
  2:{ rewrite (bind_Raise _ _ _ _ _ Hrun).
      eexists _, _. split; [reflexivity|]. simpl. by split; [right|]. }
  2:{ rewrite (bind_Exit _ _ _ _ _ Hrun). rewrite (Hex c eq_refl).
      eexists _, _. split; [reflexivity|]. simpl. by split; [right|]. }
  rewrite (bind_Ret _ _ _ _ _ Hrun).
  destruct (count_dest_world w3) as (o4 & Hc4 & Hex4 & Hof4).
  destruct o4 as [a4|e|c|]; [| |by destruct (Hex4 c)|done].
  2:{ rewrite (bind_Raise _ _ _ _ _ Hc4).
      eexists _, _. split; [reflexivity|]. simpl. by split; [right|]. }
  rewrite (bind_Ret _ _ _ _ _ Hc4).
  destruct (0 <? totalErrors st'); eexists _, _; (split; [reflexivity|]);
    simpl; (split; [auto|]); done.
Qed.

Lemma prefilter_script_exits_on_positive_ids_witness :
  ∃ c w',
    Prefilter.run 0 7
      {| source := source scenario_world; dest := ∅;
         faults := [NoFault; NoFault;
                    ErrorPayload {| message := "connection reset" |}];
         log := [] |}
    = (Exit c, w')
    ∧ (c = 0 ∨ c = 1)
    ∧ source w' = source scenario_world.
Proof.
  apply (prefilter_script_exits_on_positive_ids 0
           {| source := source scenario_world; dest := ∅;
              faults := [NoFault; NoFault;
                         ErrorPayload {| message := "connection reset" |}];
              log := [] |} 7).
  - simpl. repeat (apply Forall_cons_2; [reflexivity|]). apply Forall_nil_2.
  - simpl. lia.
Defined.
